(** * ZTF light-curve analysis (ztf_analysis.py): brightness, fading, colour

    Shallow embedding of [ZTFAnalyzer] and proofs about its three analysers,
    the per-source orchestrator and the synthetic light-curve generator.

    Numeric model.  Finite times (MJD) and magnitudes are exact rationals
    [Q], so rounding of binary floating point is abstracted away.  A
    double that need not be finite is a [float]: a rational, [np.nan] or
    an infinity.  [analyze_brightness], which tests its mean with
    [np.isnan], is modelled on magnitudes of type [float]; the fits and the
    interpolation are modelled on finite samples.  Where these would
    produce a non-finite double (a division by zero inside the
    interpolation, a rank-deficient least-squares system) numpy raises no
    exception and goes on with inf or nan: such a run ends in the outcome
    [NonFinite], which is neither a return value of the model nor a raised
    exception. *)

From Stdlib Require Import String QArith Qabs Qminmax Lqa Lia ZArith Bool List Sorted.
Import ListNotations.

Local Open Scope Q_scope.

(** ** Numbers *)

Inductive float : Type :=
| Num (q : Q)
| NaN
| PosInf
| NegInf.

(** [np.isnan] *)
Definition isnan (x : float) : bool :=
  match x with
  | NaN => true
  | _ => false
  end.

(** Strict comparison of rationals as a boolean. *)
Definition Qlt_bool (x y : Q) : bool := negb (Qle_bool y x).

(** [x < c] on a double and a finite constant: every comparison with nan
    is false. *)
Definition flt (x : float) (c : Q) : bool :=
  match x with
  | Num q => Qlt_bool q c
  | NegInf => true
  | PosInf => false
  | NaN => false
  end.

(** Python's builtin [max(a, b)] and [min(a, b)]: the second argument is
    returned only when it is strictly better. *)
Definition py_max (a b : Q) : Q := if Qlt_bool a b then b else a.
Definition py_min (a b : Q) : Q := if Qlt_bool b a then b else a.

(** ** Outcomes of a call *)

Inductive exn : Type :=
| ValueError
| TypeError
| IndexError.

Inductive outcome (A : Type) : Type :=
| Returns (a : A)
| Raises (e : exn)
| NonFinite.

Arguments Returns {A} a.
Arguments Raises {A} e.
Arguments NonFinite {A}.

Definition bind {A B : Type} (c : outcome A) (k : A -> outcome B) : outcome B :=
  match c with
  | Returns a => k a
  | Raises e => Raises e
  | NonFinite => NonFinite
  end.

Notation "x <- c ;; k" := (bind c (fun x => k))
  (at level 61, c at next level, right associativity).

(** ** numpy reductions over exact numbers *)

Definition np_sum (l : list Q) : Q := fold_right Qplus 0 l.

Definition Qlen (l : list Q) : Q := inject_Z (Z.of_nat (length l)).

(** [np.mean] of a non-empty array. *)
Definition np_mean (l : list Q) : Q := np_sum l / Qlen l.

(** [arr.min()] and [arr.max()]: [ValueError] on an empty array. *)
Definition np_min (l : list Q) : outcome Q :=
  match l with
  | [] => Raises ValueError
  | x :: xs => Returns (fold_left py_min xs x)
  end.

Definition np_max (l : list Q) : outcome Q :=
  match l with
  | [] => Raises ValueError
  | x :: xs => Returns (fold_left py_max xs x)
  end.

(** ** Light curves

    The dictionary built by [_parse_ztf_response] and
    [_generate_synthetic_lc] always carries the four keys ['g'], ['r'],
    ['times_g'], ['times_r']; a falsy [lc_dict] is [None]. *)

Record LightCurve : Type := mkLC {
  lc_g : list Q;
  lc_r : list Q;
  lc_times_g : list Q;
  lc_times_r : list Q
}.

(** Each magnitude has its timestamp. *)
Definition well_formed (lc : LightCurve) : Prop :=
  length (lc_times_g lc) = length (lc_g lc) /\
  length (lc_times_r lc) = length (lc_r lc).

(** ** Magnitudes as doubles

    A magnitude decoded from JSON is a double: it may be [nan] or an
    infinity.  [analyze_brightness] is the analyser that tells such a value
    apart (line 174 tests the mean with [np.isnan]), so the dictionary it
    receives is modelled with [float] entries; [raw] is the dictionary of a
    light curve of finite samples. *)

Record RawLightCurve : Type := mkRaw {
  raw_g : list float;
  raw_r : list float;
  raw_times_g : list float;
  raw_times_r : list float
}.

Definition raw (lc : LightCurve) : RawLightCurve :=
  {| raw_g := map Num (lc_g lc);
     raw_r := map Num (lc_r lc);
     raw_times_g := map Num (lc_times_g lc);
     raw_times_r := map Num (lc_times_r lc) |}.

(** IEEE 754 on the special values, exact on the finite ones: nan absorbs,
    and the sum of the two infinities is nan. *)
Definition fadd (x y : float) : float :=
  match x, y with
  | Num a, Num b => Num (a + b)
  | NaN, _ => NaN
  | _, NaN => NaN
  | PosInf, NegInf => NaN
  | NegInf, PosInf => NaN
  | PosInf, _ => PosInf
  | _, PosInf => PosInf
  | NegInf, _ => NegInf
  | _, NegInf => NegInf
  end.

Definition fsub (x y : float) : float :=
  match x, y with
  | Num a, Num b => Num (a - b)
  | NaN, _ => NaN
  | _, NaN => NaN
  | PosInf, PosInf => NaN
  | NegInf, NegInf => NaN
  | PosInf, _ => PosInf
  | _, NegInf => PosInf
  | NegInf, _ => NegInf
  | _, PosInf => NegInf
  end.

(** [x * x] *)
Definition fsquare (x : float) : float :=
  match x with
  | Num a => Num (a * a)
  | NaN => NaN
  | _ => PosInf
  end.

(** Division by the positive number of entries. *)
Definition fdiv_count (x : float) (n : nat) : float :=
  match x with
  | Num a => Num (a / inject_Z (Z.of_nat n))
  | _ => x
  end.

(** [np.minimum]: nan propagates. *)
Definition fminimum (x y : float) : float :=
  match x, y with
  | Num a, Num b => Num (py_min a b)
  | NaN, _ => NaN
  | _, NaN => NaN
  | NegInf, _ => NegInf
  | _, NegInf => NegInf
  | PosInf, _ => y
  | _, PosInf => x
  end.

Definition float_sum (l : list float) : float := fold_right fadd (Num 0) l.

(** [np.mean(arr)]; on an empty array numpy answers nan. *)
Definition float_mean (l : list float) : float :=
  match l with
  | [] => NaN
  | _ :: _ => fdiv_count (float_sum l) (length l)
  end.

(** [np.min(arr)] where the caller has checked [len(arr) > 0]. *)
Definition float_min (l : list float) : float :=
  match l with
  | [] => NaN
  | x :: xs => fold_left fminimum xs x
  end.

(** ** analyze_brightness *)

Record BrightnessResult : Type := mkBrightness {
  br_r_mean : float;
  br_r_min : float;
  br_r_std : float;
  br_g_mean : float;
  br_g_min : float;
  br_priority : string
}.

Section Brightness.

(** [np.sqrt], used by [np.std]. *)
Variable np_sqrt : Q -> Q.

Definition fsqrt (x : float) : float :=
  match x with
  | Num a => Num (np_sqrt a)
  | PosInf => PosInf
  | _ => NaN
  end.

(** [np.std(arr)]: the root of the mean squared deviation from the mean. *)
Definition float_std (l : list float) : float :=
  let m := float_mean l in
  fsqrt (float_mean (map (fun x => fsquare (fsub x m)) l)).

Definition priority_of (r_mean : float) : string :=
  if negb (isnan r_mean) then
    if flt r_mean 15.5 then "HIGH"
    else if flt r_mean 16.5 then "MEDIUM"
    else if flt r_mean 17.0 then "LOW"
    else "TOO_FAINT"
  else "UNKNOWN".

Definition analyze_brightness (lc_dict : option RawLightCurve)
  : option BrightnessResult :=
  match lc_dict with
  | None => None
  | Some lc =>
      let mags_g := raw_g lc in
      let mags_r := raw_r lc in
      let '(r_mean, r_min, r_std) :=
        if (0 <? length mags_r)%nat
        then (float_mean mags_r, float_min mags_r, float_std mags_r)
        else (NaN, NaN, NaN) in
      let '(g_mean, g_min) :=
        if (0 <? length mags_g)%nat
        then (float_mean mags_g, float_min mags_g)
        else (NaN, NaN) in
      Some {| br_r_mean := r_mean;
              br_r_min := r_min;
              br_r_std := r_std;
              br_g_mean := g_mean;
              br_g_min := g_min;
              br_priority := priority_of r_mean |}
  end.

End Brightness.

(** ** Least-squares line: [np.polyfit(x, y, 1)]

    For a full-rank design the coefficients solve the normal equations;
    [polyfit] returns [(slope, intercept)], highest power first.  The
    quantities [sxx] and [sxy] are [n] times the centred sums of squares
    and of products.  When all abscissae coincide the system is rank
    deficient (numpy then answers from a truncated SVD): [NonFinite]. *)

Definition dot (x y : list Q) : Q :=
  np_sum (map (fun p => fst p * snd p) (combine x y)).

Definition sxx (x : list Q) : Q :=
  Qlen x * dot x x - np_sum x * np_sum x.

Definition sxy (x y : list Q) : Q :=
  Qlen x * dot x y - np_sum x * np_sum y.

Definition polyfit1 (x y : list Q) : outcome (Q * Q) :=
  if (length x =? 0)%nat then Raises TypeError
  else if negb (length x =? length y)%nat then Raises TypeError
  else if Qeq_bool (sxx x) 0 then NonFinite
  else
    let slope := sxy x y / sxx x in
    let intercept := (np_sum y - slope * np_sum x) / Qlen x in
    Returns (slope, intercept).

(** ** analyze_fading *)

Record FadingResult : Type := mkFading {
  fr_slope_mag_per_day : Q;
  fr_mag_change_1yr : Q;
  fr_is_fading : bool;
  fr_status : string;
  fr_n_observations : nat
}.

Definition fading_status_of (slope : Q) : string :=
  if Qlt_bool (Qabs slope) 0.0001 then "STABLE"
  else if Qlt_bool 0.0001 slope
       then "FADING (brightening in mag = getting dimmer)"
       else "BRIGHTENING (dimming in mag = getting brighter)".

Definition analyze_fading (lc_dict : option LightCurve) (object_name : string)
  : outcome (option FadingResult) :=
  match lc_dict with
  | None => Returns None
  | Some lc =>
      if (length (lc_r lc) <? 5)%nat then Returns None
      else
        let mags_r := lc_r lc in
        let times_r := lc_times_r lc in
        coeffs <- polyfit1 times_r mags_r ;;
        let slope := fst coeffs in
        let mag_change_1yr := slope * 365 in
        let is_fading := Qlt_bool 0.2 mag_change_1yr in
        Returns (Some {| fr_slope_mag_per_day := slope;
                         fr_mag_change_1yr := mag_change_1yr;
                         fr_is_fading := is_fading;
                         fr_status := fading_status_of slope;
                         fr_n_observations := length mags_r |})
  end.

(** ** Interpolation onto a common grid *)

(** [np.linspace(start, stop, num)] with the default [endpoint=True]: the
    last sample is set to [stop] itself. *)
Definition linspace (start stop : Q) (num : nat) : list Q :=
  let step := (stop - start) / inject_Z (Z.of_nat (num - 1)) in
  map (fun i => if (i =? num - 1)%nat && (1 <? num)%nat then stop
                else inject_Z (Z.of_nat i) * step + start)
      (seq 0 num).

(** Stable sort of the samples by time ([np.argsort(x, kind="mergesort")]). *)
Fixpoint insert_by_time (p : Q * Q) (l : list (Q * Q)) : list (Q * Q) :=
  match l with
  | [] => [p]
  | q :: l' =>
      if Qle_bool (fst p) (fst q) then p :: q :: l'
      else q :: insert_by_time p l'
  end.

Definition sort_by_time (l : list (Q * Q)) : list (Q * Q) :=
  fold_right insert_by_time [] l.

(** [scipy.interpolate.interp1d(x, y, kind='linear',
    fill_value='extrapolate')]: the constructor checks the lengths and
    sorts the samples; the interpolant is the sorted table. *)
Definition interp1d (x y : list Q) : outcome (list (Q * Q)) :=
  if negb (length x =? length y)%nat then Raises ValueError
  else if (length x =? 0)%nat then Raises ValueError
  else Returns (sort_by_time (combine x y)).

(** [np.searchsorted(xs, v)] on a sorted array: how many entries are
    strictly below [v]. *)
Definition searchsorted (xs : list Q) (v : Q) : nat :=
  length (filter (fun x => Qlt_bool x v) xs).

(** [np.clip(i, lo, hi)] *)
Definition clip (i lo hi : nat) : nat := Nat.min (Nat.max i lo) hi.

(** Evaluation of the interpolant at one point ([_call_linear]); the table
    holds at least two samples where the analyser calls it. *)
Definition call_linear (table : list (Q * Q)) (x_new : Q) : outcome Q :=
  let xs := map fst table in
  let ys := map snd table in
  let hi := clip (searchsorted xs x_new) 1 (length xs - 1) in
  let lo := (hi - 1)%nat in
  let x_lo := nth lo xs 0 in
  let x_hi := nth hi xs 0 in
  let y_lo := nth lo ys 0 in
  let y_hi := nth hi ys 0 in
  if Qeq_bool (x_hi - x_lo) 0 then NonFinite
  else
    let slope := (y_hi - y_lo) / (x_hi - x_lo) in
    Returns (slope * (x_new - x_lo) + y_lo).

Fixpoint map_outcome {A B : Type} (f : A -> outcome B) (l : list A)
  : outcome (list B) :=
  match l with
  | [] => Returns []
  | a :: l' =>
      b <- f a ;;
      bs <- map_outcome f l' ;;
      Returns (b :: bs)
  end.

Definition array_sub (a b : list Q) : list Q :=
  map (fun p => fst p - snd p) (combine a b).

(** ** analyze_color_evolution *)

Record ColorEvolutionResult : Type := mkColor {
  ce_mean_color_gr : Q;
  ce_color_slope_per_day : Q;
  ce_color_change_1yr : Q;
  ce_is_significant_evolution : bool;
  ce_status : string;
  ce_baseline_days : Q
}.

Section ColorEvolution.

(** Python's [format(x, '.2f')]. *)
Variable format_2f : Q -> string.

Definition color_status_of (color_slope color_change_1yr : Q) : string :=
  if Qlt_bool (Qabs color_slope) 0.0001 then "STABLE"
  else if Qlt_bool 0.0001 color_slope
       then "REDDENING (Δ(g-r) = +" ++ format_2f (Qabs color_change_1yr)
            ++ " mag/yr)"
       else "BLUEING (Δ(g-r) = " ++ format_2f color_change_1yr
            ++ " mag/yr)".

(** The statements inside [try: ... except: return None]. *)
Definition interpolate_bands (lc : LightCurve) (common_times : list Q)
  : outcome (list Q * list Q) :=
  f_g <- interp1d (lc_times_g lc) (lc_g lc) ;;
  f_r <- interp1d (lc_times_r lc) (lc_r lc) ;;
  g_interp <- map_outcome (call_linear f_g) common_times ;;
  r_interp <- map_outcome (call_linear f_r) common_times ;;
  Returns (g_interp, r_interp).

Definition analyze_color_evolution (lc_dict : option LightCurve)
  : outcome (option ColorEvolutionResult) :=
  match lc_dict with
  | None => Returns None
  | Some lc =>
      let mags_g := lc_g lc in
      let mags_r := lc_r lc in
      let times_g := lc_times_g lc in
      let times_r := lc_times_r lc in
      if (length mags_g <? 3)%nat || (length mags_r <? 3)%nat
      then Returns None
      else
        tg_min <- np_min times_g ;;
        tr_min <- np_min times_r ;;
        let min_time := py_max tg_min tr_min in
        tg_max <- np_max times_g ;;
        tr_max <- np_max times_r ;;
        let max_time := py_min tg_max tr_max in
        if Qlt_bool (max_time - min_time) 100 then Returns None
        else
          let common_times :=
            linspace min_time max_time
                     (Nat.min (length mags_g) (length mags_r)) in
          match interpolate_bands lc common_times with
          | Raises _ => Returns None
          | NonFinite => NonFinite
          | Returns (g_interp, r_interp) =>
              let color_gr := array_sub g_interp r_interp in
              color_coeffs <- polyfit1 common_times color_gr ;;
              let color_slope := fst color_coeffs in
              let color_change_1yr := color_slope * 365 in
              let color_status :=
                color_status_of color_slope color_change_1yr in
              let is_significant := Qlt_bool 0.1 (Qabs color_change_1yr) in
              Returns (Some {| ce_mean_color_gr := np_mean color_gr;
                               ce_color_slope_per_day := color_slope;
                               ce_color_change_1yr := color_change_1yr;
                               ce_is_significant_evolution := is_significant;
                               ce_status := color_status;
                               ce_baseline_days := max_time - min_time |})
          end
  end.

End ColorEvolution.

(** ** Light-curve acquisition *)

(** One entry of the JSON list [data['result']]: [None] is a missing
    ['filtercode'] key, and a missing or null ['mag'] or ['mjd']. *)
Record observation : Type := mkObs {
  ob_filtercode : option string;
  ob_mag : option Q;
  ob_mjd : option Q
}.

Definition lower_ascii (c : Ascii.ascii) : Ascii.ascii :=
  let n := Ascii.nat_of_ascii c in
  if ((65 <=? n) && (n <=? 90))%nat then Ascii.ascii_of_nat (n + 32) else c.

(** [str.lower] on ASCII text. *)
Fixpoint lower (s : string) : string :=
  match s with
  | EmptyString => EmptyString
  | String c s' => String (lower_ascii c) (lower s')
  end.

Definition empty_lc : LightCurve :=
  {| lc_g := []; lc_r := []; lc_times_g := []; lc_times_r := [] |}.

(** Body of the loop of [_parse_ztf_response]. *)
Definition parse_observation (lc_dict : LightCurve) (o : observation)
  : LightCurve :=
  let band := lower (match ob_filtercode o with Some f => f | None => "g" end) in
  match ob_mag o, ob_mjd o with
  | Some mag, Some mjd =>
      if String.eqb band "g" then
        {| lc_g := lc_g lc_dict ++ [mag];
           lc_r := lc_r lc_dict;
           lc_times_g := lc_times_g lc_dict ++ [mjd];
           lc_times_r := lc_times_r lc_dict |}
      else if String.eqb band "r" then
        {| lc_g := lc_g lc_dict;
           lc_r := lc_r lc_dict ++ [mag];
           lc_times_g := lc_times_g lc_dict;
           lc_times_r := lc_times_r lc_dict ++ [mjd] |}
      else lc_dict
  | _, _ => lc_dict
  end.

Definition nonempty {A : Type} (l : list A) : bool :=
  match l with
  | [] => false
  | _ :: _ => true
  end.

Definition _parse_ztf_response (ztf_data : list observation)
  : option LightCurve :=
  let lc_dict := fold_left parse_observation ztf_data empty_lc in
  if nonempty (lc_g lc_dict) || nonempty (lc_r lc_dict)
  then Some lc_dict
  else None.

(** What the HTTP request of [query_ztf_lightcurve] comes to:
    [RequestFailed] when [requests.get] or [response.json()] raises (no
    connection, timeout, malformed body); otherwise the status code and
    [data['result']], the latter [None] when [data] is empty or lacks the
    key. *)
Inductive http_reply : Type :=
| RequestFailed
| Reply (status_code : Z) (result : option (list observation)).

(** The attributes of a [ZTFAnalyzer] instance. *)
Record ZTFAnalyzer : Type := mkAnalyzer {
  ztf_token : string;
  output_dir : string;
  use_real_data : bool
}.

(** The global generator of [np.random]: a state, re-seeding, and the
    scalar draws the code uses.  An array draw of size [n] is [n]
    successive scalar draws. *)
Record NumpyRandom : Type := mkRandom {
  rng_state : Type;
  random_seed : Z -> rng_state;
  random_randint : Z -> Z -> rng_state -> Z * rng_state;
  random_uniform : Q -> Q -> rng_state -> Q * rng_state;
  random_normal : Q -> Q -> rng_state -> Q * rng_state
}.

Fixpoint draw_n {S : Type} (draw : S -> Q * S) (n : nat) (s : S)
  : list Q * S :=
  match n with
  | O => ([], s)
  | Datatypes.S n' =>
      let '(x, s1) := draw s in
      let '(xs, s2) := draw_n draw n' s1 in
      (x :: xs, s2)
  end.

Fixpoint insert_sorted (x : Q) (l : list Q) : list Q :=
  match l with
  | [] => [x]
  | y :: l' => if Qle_bool x y then x :: y :: l' else y :: insert_sorted x l'
  end.

(** [np.sort] *)
Definition np_sort (l : list Q) : list Q := fold_right insert_sorted [] l.

Definition array_add (a b : list Q) : list Q :=
  map (fun p => fst p + snd p) (combine a b).

Section Acquisition.

Variable rnd : NumpyRandom.
(** The builtin [hash] on strings, fixed for the life of a process. *)
Variable py_hash : string -> Z.
Variable np_sin : Q -> Q.
Variable np_pi : Q.
(** Module constant set by the guarded [import requests]. *)
Variable HAS_REQUESTS : bool.

Definition _generate_synthetic_lc (object_name : string) (ra dec : Q)
  (s : rng_state rnd) : outcome LightCurve * rng_state rnd :=
  let s := random_seed rnd (py_hash object_name mod 2 ^ 32)%Z in
  let '(n_obs_per_band, s) := random_randint rnd 30 150 s in
  let n := Z.to_nat n_obs_per_band in
  let '(u, s) := draw_n (random_uniform rnd 58000 59000) n s in
  let times_g := np_sort u in
  let '(u, s) := draw_n (random_uniform rnd 58000 59000) n s in
  let times_r := np_sort u in
  let '(base_r_mag, s) := random_uniform rnd 13 17.5 s in
  let '(u, s) := random_uniform rnd (-0.2) 0.5 s in
  let base_g_mag := base_r_mag - u in
  let '(variability_amp, s) := random_uniform rnd 0.1 1.5 s in
  let '(noise_g, s) := draw_n (random_normal rnd 0 0.1) n s in
  let '(noise_r, s) := draw_n (random_normal rnd 0 0.1) n s in
  let '(fade_trend, s) := random_uniform rnd (-0.003) 0.002 s in
  match times_g, times_r with
  | [], _ | _, [] => (Raises IndexError, s)
  | tg0 :: _, tr0 :: _ =>
      let fade_g := map (fun t => fade_trend * (t - tg0)) times_g in
      let fade_r := map (fun t => fade_trend * (t - tr0)) times_r in
      let '(period, s) := random_uniform rnd 10 100 s in
      let periodic_component_g :=
        map (fun t => variability_amp * np_sin (2 * np_pi * t / period))
            times_g in
      let '(period, s) := random_uniform rnd 10 100 s in
      let periodic_component_r :=
        map (fun t => variability_amp * np_sin (2 * np_pi * t / period))
            times_r in
      let mags_g :=
        array_add (array_add (map (Qplus base_g_mag) periodic_component_g)
                             fade_g) noise_g in
      let mags_r :=
        array_add (array_add (map (Qplus base_r_mag) periodic_component_r)
                             fade_r) noise_r in
      (Returns {| lc_g := mags_g;
                  lc_r := mags_r;
                  lc_times_g := times_g;
                  lc_times_r := times_r |}, s)
  end.

(** [query_ztf_lightcurve]: the reply of the network is an input; the
    analyser and the random generator are threaded through. *)
Definition query_ztf_lightcurve (self : ZTFAnalyzer) (net : http_reply)
  (s : rng_state rnd) (ra dec : Q) (object_name : string)
  : outcome (option LightCurve) * ZTFAnalyzer * rng_state rnd :=
  let fallback (self : ZTFAnalyzer) :=
    let '(lc, s') := _generate_synthetic_lc object_name ra dec s in
    (lc_dict <- lc ;; Returns (Some lc_dict), self, s') in
  if negb HAS_REQUESTS then fallback self
  else
    match net with
    | Reply 200 (Some (o :: result)) =>
        (Returns (_parse_ztf_response (o :: result)),
         {| ztf_token := ztf_token self;
            output_dir := output_dir self;
            use_real_data := true |},
         s)
    | _ => fallback self
    end.

End Acquisition.

(** ** analyze_source *)

(** A row of the filtered catalogue, as [source.to_dict()]. *)
Record CatalogRecord : Type := mkSource {
  sd_RAdeg : Q;
  sd_DEdeg : Q;
  sd_Objname : string;
  sd_YSO_CLASS : option string;
  sd_W2magMean : option float
}.

Record SourceAnalysis : Type := mkAnalysis {
  sa_Objname : string;
  sa_RAdeg : Q;
  sa_DEdeg : Q;
  sa_YSO_CLASS : string;
  sa_W2magMean : float;
  sa_r_mean : float;
  sa_r_priority : string;
  sa_fading_mag_per_year : float;
  sa_is_fading : bool;
  sa_fading_status : string;
  sa_color_change_1yr : float;
  sa_is_reddening_bluing : bool;
  sa_color_status : string;
  sa_baseline_days : float
}.

Section Orchestrator.

Variable np_sqrt : Q -> Q.
Variable format_2f : Q -> string.
Variable rnd : NumpyRandom.
Variable py_hash : string -> Z.
Variable np_sin : Q -> Q.
Variable np_pi : Q.
Variable HAS_REQUESTS : bool.

(** The record assembled once the three analysers have returned. *)
Definition assemble (source_dict : CatalogRecord)
  (brightness : option BrightnessResult) (fading : option FadingResult)
  (color_evol : option ColorEvolutionResult) : SourceAnalysis :=
  {| sa_Objname := sd_Objname source_dict;
     sa_RAdeg := sd_RAdeg source_dict;
     sa_DEdeg := sd_DEdeg source_dict;
     sa_YSO_CLASS :=
       match sd_YSO_CLASS source_dict with
       | Some c => c
       | None => EmptyString
       end;
     sa_W2magMean :=
       match sd_W2magMean source_dict with Some w => w | None => NaN end;
     sa_r_mean :=
       match brightness with Some b => br_r_mean b | None => NaN end;
     sa_r_priority :=
       match brightness with Some b => br_priority b | None => "UNKNOWN" end;
     sa_fading_mag_per_year :=
       match fading with Some f => Num (fr_mag_change_1yr f) | None => NaN end;
     sa_is_fading :=
       match fading with Some f => fr_is_fading f | None => false end;
     sa_fading_status :=
       match fading with Some f => fr_status f | None => "UNKNOWN" end;
     sa_color_change_1yr :=
       match color_evol with
       | Some c => Num (ce_color_change_1yr c)
       | None => NaN
       end;
     sa_is_reddening_bluing :=
       match color_evol with
       | Some c => ce_is_significant_evolution c
       | None => false
       end;
     sa_color_status :=
       match color_evol with Some c => ce_status c | None => "UNKNOWN" end;
     sa_baseline_days :=
       match color_evol with
       | Some c => Num (ce_baseline_days c)
       | None => NaN
       end |}.

(** The part of [analyze_source] after the query. *)
Definition analyze_lc (source_dict : CatalogRecord)
  (lc_data : option LightCurve) : outcome (option SourceAnalysis) :=
  match lc_data with
  | None => Returns None
  | Some lc =>
      let brightness := analyze_brightness np_sqrt (Some (raw lc)) in
      fading <- analyze_fading lc_data (sd_Objname source_dict) ;;
      color_evol <- analyze_color_evolution format_2f lc_data ;;
      Returns (Some (assemble source_dict brightness fading color_evol))
  end.

Definition analyze_source (self : ZTFAnalyzer) (net : http_reply)
  (s : rng_state rnd) (source_dict : CatalogRecord)
  : outcome (option SourceAnalysis) * ZTFAnalyzer * rng_state rnd :=
  let ra := sd_RAdeg source_dict in
  let dec := sd_DEdeg source_dict in
  let obj_name := sd_Objname source_dict in
  let '(lc, self', s') :=
    query_ztf_lightcurve rnd py_hash np_sin np_pi HAS_REQUESTS
                         self net s ra dec obj_name in
  (lc_data <- lc ;; analyze_lc source_dict lc_data, self', s').

End Orchestrator.

(** * Vocabulary of the statements and sample data *)

Definition sum_of (f : Q * Q -> Q) (l : list (Q * Q)) : Q := np_sum (map f l).

Definition cnt (l : list (Q * Q)) : Q := inject_Z (Z.of_nat (length l)).

(** Squared residuals of the line [a * t + b]. *)
Definition residual_ss (x y : list Q) (a b : Q) : Q :=
  sum_of (fun p => (snd p - (a * fst p + b)) * (snd p - (a * fst p + b)))
         (combine x y).

(** The line [a * t + b] minimises the squared residuals. *)
Definition least_squares_line (x y : list Q) (a b : Q) : Prop :=
  forall a' b', residual_ss x y a b <= residual_ss x y a' b'.

(** Of any two samples the later one is the fainter one. *)
Definition rising (p q : Q * Q) : Prop :=
  (fst p < fst q /\ snd p < snd q) \/ (fst q < fst p /\ snd q < snd p).

Definition falling (p q : Q * Q) : Prop :=
  (fst p < fst q /\ snd q < snd p) \/ (fst q < fst p /\ snd p < snd q).

Definition quad (n Sx Sy Sxx Sxy Syy a b : Q) : Q :=
  Syy - 2 * a * Sxy - 2 * b * Sy + a * a * Sxx + 2 * a * b * Sx + n * b * b.

(** The coefficients computed by [polyfit1]. *)
Definition fit_slope (x y : list Q) : Q := sxy x y / sxx x.
Definition fit_intercept (x y : list Q) : Q :=
  (np_sum y - fit_slope x y * np_sum x) / Qlen x.

(** Samples on a line [k * t + c]. *)
Definition on_line (k c : Q) (x y : list Q) : Prop :=
  Forall2 (fun t m => m == k * t + c) x y.

(** The tier of a mean magnitude, as the documentation words it. *)
Definition tier_of_mean (m : Q) : string :=
  if Qlt_le_dec m 15.5 then "HIGH"
  else if Qlt_le_dec m 16.5 then "MEDIUM"
  else if Qlt_le_dec m 17.0 then "LOW"
  else "TOO_FAINT".

(** The times are not all the same. *)
Definition two_epochs (x : list Q) : Prop :=
  exists u v, In u x /\ In v x /\ ~ u == v.

Definition lc_slow_rise : LightCurve :=
  {| lc_g := [];
     lc_r := [14.0; 14.001; 14.002; 14.003; 14.004];
     lc_times_g := [];
     lc_times_r := [0; 100; 200; 300; 400] |}.

Definition lc_rise_a : LightCurve :=
  {| lc_g := [];
     lc_r := [14.0; 14.1; 14.2; 14.3; 14.4];
     lc_times_g := [];
     lc_times_r := [0; 100; 200; 300; 400] |}.

Definition lc_rise_b : LightCurve :=
  {| lc_g := [];
     lc_r := [14.0; 14.2; 14.4; 14.6; 14.8];
     lc_times_g := [];
     lc_times_r := [0; 100; 200; 300; 400] |}.

Definition lc_rise_boundary : LightCurve :=
  {| lc_g := [];
     lc_r := [14.0; 14.01; 14.02; 14.03; 14.04];
     lc_times_g := [];
     lc_times_r := [0; 100; 200; 300; 400] |}.

Definition list_min (l : list Q) (m : Q) : Prop :=
  In m l /\ Forall (fun t => m <= t) l.

Definition list_max (l : list Q) (m : Q) : Prop :=
  In m l /\ Forall (fun t => t <= m) l.

Definition distinct_times (x : list Q) : Prop :=
  ForallOrdPairs (fun u v => ~ u == v) x.

(** [v] is the value at [x] of the broken line through the samples: [x]
    lies between two neighbouring samples and [v] on the segment that joins
    them. *)
Definition linear_interpolation (times mags : list Q) (x v : Q) : Prop :=
  exists t0 m0 t1 m1,
    In (t0, m0) (combine times mags) /\
    In (t1, m1) (combine times mags) /\
    t0 < t1 /\ t0 <= x <= t1 /\
    Forall (fun q => fst q <= t0 \/ t1 <= fst q) (combine times mags) /\
    v == m0 + (m1 - m0) * (x - t0) / (t1 - t0).

Definition by_time (p q : Q * Q) : Prop := fst p < fst q.

(** The intersection [start, stop] of the two bands' time spans. *)
Definition time_window (lc : LightCurve) (start stop : Q) : Prop :=
  exists g_first r_first g_last r_last,
    list_min (lc_times_g lc) g_first /\ list_min (lc_times_r lc) r_first /\
    list_max (lc_times_g lc) g_last /\ list_max (lc_times_r lc) r_last /\
    start == Qmax g_first r_first /\ stop == Qmin g_last r_last.

Record window_ends (lc : LightCurve) (g0 r0 g1 r1 : Q) : Prop := {
  we_g0 : np_min (lc_times_g lc) = Returns g0;
  we_r0 : np_min (lc_times_r lc) = Returns r0;
  we_g1 : np_max (lc_times_g lc) = Returns g1;
  we_r1 : np_max (lc_times_r lc) = Returns r1;
  we_g0_min : list_min (lc_times_g lc) g0;
  we_r0_min : list_min (lc_times_r lc) r0;
  we_g1_max : list_max (lc_times_g lc) g1;
  we_r1_max : list_max (lc_times_r lc) r1
}.

Definition color_result (format_2f : Q -> string) (grid color : list Q)
  (baseline : Q) : ColorEvolutionResult :=
  let slope := fit_slope grid color in
  {| ce_mean_color_gr := np_mean color;
     ce_color_slope_per_day := slope;
     ce_color_change_1yr := slope * 365;
     ce_is_significant_evolution := Qlt_bool 0.1 (Qabs (slope * 365));
     ce_status := color_status_of format_2f slope (slope * 365);
     ce_baseline_days := baseline |}.


Definition lc_ragged : LightCurve :=
  {| lc_g := [15.0; 15.1; 15.2];
     lc_r := [14.0; 14.0; 14.0];
     lc_times_g := [0; 100; 200; 300];
     lc_times_r := [0; 100; 200] |}.

(** No answer comes from the network: the library is missing or the
    request fails. *)
Definition no_live_network (HAS_REQUESTS : bool) (net : http_reply) : Prop :=
  HAS_REQUESTS = false \/ net = RequestFailed.

(** A small generator, to run the model on. *)
Definition toy_next (s : Z) : Z := ((s * 1103515245 + 12345) mod 2147483648)%Z.

Definition toy_random : NumpyRandom :=
  {| rng_state := Z;
     random_seed := fun n => n;
     random_randint := fun lo hi s =>
       ((lo + toy_next s mod (hi - lo))%Z, toy_next s);
     random_uniform := fun lo hi s =>
       (lo + (hi - lo) * (inject_Z (toy_next s mod 1000) / 1000), toy_next s);
     random_normal := fun mu sigma s =>
       (mu + sigma * (inject_Z (toy_next s mod 7 - 3) / 3), toy_next s) |}.

Definition toy_hash (s : string) : Z := Z.of_nat (String.length s).

Definition toy_sin (x : Q) : Q := 0.

Definition toy_pi : Q := 3.14159.

Definition toy_analyzer : ZTFAnalyzer :=
  {| ztf_token := "token"; output_dir := "ztf_analysis";
     use_real_data := false |}.

Definition sample_source : CatalogRecord :=
  {| sd_RAdeg := 83.8; sd_DEdeg := - 5.4; sd_Objname := "V1647 Ori";
     sd_YSO_CLASS := Some "ClassI"%string; sd_W2magMean := Some (Num 7.2) |}.

(** A reply with three r-band and three g-band detections: enough for the
    colour analysis, too few for the fading analysis. *)
Definition sample_reply : http_reply :=
  Reply 200 (Some
    [ mkObs (Some "zg"%string) (Some 15.0) (Some 58000);
      mkObs (Some "G"%string) (Some 15.0) (Some 58000);
      mkObs (Some "r"%string) (Some 14.0) (Some 58000);
      mkObs (Some "g"%string) (Some 15.0) (Some 58100);
      mkObs (Some "R"%string) (Some 14.0) (Some 58100);
      mkObs None (Some 15.0) (Some 58200);
      mkObs (Some "r"%string) None (Some 58150);
      mkObs (Some "r"%string) (Some 14.0) (Some 58200) ]).

Definition lc_boundary_mean : LightCurve :=
  {| lc_g := []; lc_r := [15.0; 16.0]; lc_times_g := [];
     lc_times_r := [58000; 58001] |}.

Definition lc_constant_color : LightCurve :=
  {| lc_g := [15; 15; 15; 15; 15];
     lc_r := [14; 14; 14; 14; 14];
     lc_times_g := [0; 100; 200; 300; 400];
     lc_times_r := [0; 100; 200; 300; 400] |}.

Definition lc_short_overlap : LightCurve :=
  {| lc_g := [15; 15; 15; 15];
     lc_r := [14; 14; 14; 14];
     lc_times_g := [0; 100; 200; 300];
     lc_times_r := [250; 400; 500; 600] |}.

Definition lc_faint : LightCurve :=
  {| lc_g := []; lc_r := [16.5; 17.5]; lc_times_g := [];
     lc_times_r := [58000; 58001] |}.

(** The g band has two detections at its first epoch. *)
Definition lc_duplicate_epoch : LightCurve :=
  {| lc_g := [15.0; 15.1; 15.2];
     lc_r := [14.0; 14.0; 14.0];
     lc_times_g := [0; 0; 200];
     lc_times_r := [0; 100; 200] |}.


(** * Vocabulary of the further properties *)

(** The band an observation is filed under: its lower-cased filter code,
    ['g'] when the code is missing. *)
Definition band_of (o : observation) : string :=
  lower (match ob_filtercode o with Some f => f | None => "g" end).

(** The magnitude and time of an observation of band [b] that has both. *)
Definition usable (b : string) (o : observation) : option (Q * Q) :=
  match ob_mag o, ob_mjd o with
  | Some mag, Some mjd => if String.eqb (band_of o) b then Some (mag, mjd) else None
  | _, _ => None
  end.

Fixpoint usable_samples (b : string) (ztf_data : list observation)
  : list (Q * Q) :=
  match ztf_data with
  | [] => []
  | o :: rest =>
      match usable b o with
      | Some p => p :: usable_samples b rest
      | None => usable_samples b rest
      end
  end.

(** The reply is a 200 with a non-empty list under ['result']. *)
Definition real_data (HAS_REQUESTS : bool) (net : http_reply)
  (ztf_data : list observation) : Prop :=
  HAS_REQUESTS = true /\ net = Reply 200 (Some ztf_data) /\ ztf_data <> [].

(** The r band with every magnitude raised by [dm] and every time moved by
    [dt]. *)
Definition shift_r (dm dt : Q) (lc : LightCurve) : LightCurve :=
  {| lc_g := lc_g lc;
     lc_r := map (fun m => m + dm) (lc_r lc);
     lc_times_g := lc_times_g lc;
     lc_times_r := map (fun t => t + dt) (lc_times_r lc) |}.

(** [np.random.randint(lo, hi)] answers in [lo, hi). *)
Definition randint_in_range (rnd : NumpyRandom) : Prop :=
  forall lo hi s,
    (lo < hi)%Z -> (lo <= fst (random_randint rnd lo hi s) < hi)%Z.


(** The batch loop of main. *)

Section BatchDriver.

Variable np_sqrt : Q -> Q.
Variable format_2f : Q -> string.
Variable rnd : NumpyRandom.
Variable py_hash : string -> Z.
Variable np_sin : Q -> Q.
Variable np_pi : Q.
Variable HAS_REQUESTS : bool.

(** The loop [for ... in sources_df.iterrows()] of [main]: each source comes
    with the reply its query will get; a record is appended when the
    analysis is not None, and an exception ends the run. *)
Fixpoint main_loop (analyzer : ZTFAnalyzer) (s : rng_state rnd)
  (sources : list (CatalogRecord * http_reply))
  (results : list SourceAnalysis)
  : outcome (list SourceAnalysis) * ZTFAnalyzer * rng_state rnd :=
  match sources with
  | [] => (Returns results, analyzer, s)
  | (source, net) :: rest =>
      let '(analysis, analyzer', s') :=
        analyze_source np_sqrt format_2f rnd py_hash np_sin np_pi
                       HAS_REQUESTS analyzer net s source in
      match analysis with
      | Returns (Some a) => main_loop analyzer' s' rest (results ++ [a])
      | Returns None => main_loop analyzer' s' rest results
      | Raises e => (Raises e, analyzer', s')
      | NonFinite => (NonFinite, analyzer', s')
      end
  end.

End BatchDriver.

(** The query of this source yields no light curve: a 200 reply whose
    non-empty result list holds no usable observation. *)
Definition skipped (HAS_REQUESTS : bool) (net : http_reply) : bool :=
  HAS_REQUESTS &&
  match net with
  | Reply 200 (Some (o :: rest)) =>
      match _parse_ztf_response (o :: rest) with
      | None => true
      | Some _ => false
      end
  | _ => false
  end.

Definition kept (HAS_REQUESTS : bool)
  (sources : list (CatalogRecord * http_reply)) : list CatalogRecord :=
  map fst (filter (fun p => negb (skipped HAS_REQUESTS (snd p))) sources).

Definition sample_observations : list observation :=
  [ mkObs (Some "zg"%string) (Some 15.0) (Some 58000);
    mkObs (Some "G"%string) (Some 15.0) (Some 58000);
    mkObs (Some "r"%string) (Some 14.0) (Some 58000);
    mkObs None (Some 15.0) (Some 58200);
    mkObs (Some "r"%string) None (Some 58150) ].

(** A reply whose detections are filed under ['zg'] and ['zr']. *)
Definition unusable_reply : http_reply :=
  Reply 200 (Some [ mkObs (Some "zg"%string) (Some 15.0) (Some 58000);
                    mkObs (Some "zr"%string) (Some 14.0) (Some 58000) ]).

Definition lc_ragged_r : LightCurve :=
  {| lc_g := []; lc_r := [14; 14; 14; 14; 14]; lc_times_g := [];
     lc_times_r := [0; 100; 200; 300] |}.

Definition lc_no_times : LightCurve :=
  {| lc_g := [15; 15; 15]; lc_r := [14; 14; 14]; lc_times_g := [];
     lc_times_r := [0; 100; 200] |}.

Definition lc_reddening : LightCurve :=
  {| lc_g := [15.0; 15.1; 15.2];
     lc_r := [14.0; 14.0; 14.0];
     lc_times_g := [0; 100; 200];
     lc_times_r := [0; 100; 200] |}.

Definition sample_batch : list (CatalogRecord * http_reply) :=
  [ (sample_source, sample_reply); (sample_source, unusable_reply) ].

(** * Proofs *)

(** ** Booleans and comparisons *)

Lemma Qlt_bool_iff (x y : Q) : Qlt_bool x y = true <-> x < y.
Proof.
  unfold Qlt_bool. rewrite negb_true_iff.
  split; intro H.
  - apply Qnot_le_lt. intro Hle. apply Qle_bool_iff in Hle. congruence.
  - destruct (Qle_bool y x) eqn:E; [|reflexivity].
    apply Qle_bool_iff in E. exfalso. apply (Qlt_not_le _ _ H E).
Qed.

Lemma Qlt_bool_false_iff (x y : Q) : Qlt_bool x y = false <-> y <= x.
Proof.
  unfold Qlt_bool. rewrite negb_false_iff. apply Qle_bool_iff.
Qed.

(** ** Sums over samples *)

Lemma Qlen_cons (x : Q) (l : list Q) : Qlen (x :: l) == 1 + Qlen l.
Proof.
  unfold Qlen. cbn [length]. rewrite Nat2Z.inj_succ, <- Z.add_1_l.
  rewrite inject_Z_plus. reflexivity.
Qed.

Lemma Qlen_nonneg (l : list Q) : 0 <= Qlen l.
Proof.
  unfold Qlen. change 0 with (inject_Z 0). rewrite <- Zle_Qle. lia.
Qed.

Lemma Qlen_pos (l : list Q) : l <> [] -> 0 < Qlen l.
Proof.
  destruct l as [|x l]; [congruence|]. intros _.
  rewrite Qlen_cons. pose proof (Qlen_nonneg l). lra.
Qed.

Lemma Qlen_length (l l' : list Q) : length l = length l' -> Qlen l = Qlen l'.
Proof. unfold Qlen. intros ->. reflexivity. Qed.

Lemma map_fst_combine_eq (x y : list Q) :
  length x = length y -> map fst (combine x y) = x.
Proof.
  revert y. induction x as [|a x IH]; intros [|b y] H; simpl in *;
    try congruence.
  f_equal. apply IH. lia.
Qed.

Lemma map_snd_combine_eq (x y : list Q) :
  length x = length y -> map snd (combine x y) = y.
Proof.
  revert y. induction x as [|a x IH]; intros [|b y] H; simpl in *;
    try congruence.
  f_equal. apply IH. lia.
Qed.

Lemma dot_self_combine (x y : list Q) :
  length x = length y ->
  dot x x = sum_of (fun p => fst p * fst p) (combine x y).
Proof.
  unfold dot, sum_of.
  revert y. induction x as [|a x IH]; intros [|b y] H; simpl in *;
    try congruence.
  f_equal. apply IH. lia.
Qed.

Lemma np_sum_map_fst (x y : list Q) :
  length x = length y -> np_sum x = sum_of fst (combine x y).
Proof. intro H. unfold sum_of. now rewrite map_fst_combine_eq. Qed.

Lemma np_sum_map_snd (x y : list Q) :
  length x = length y -> np_sum y = sum_of snd (combine x y).
Proof. intro H. unfold sum_of. now rewrite map_snd_combine_eq. Qed.

Lemma Qlen_combine (x y : list Q) :
  length x = length y -> Qlen x = inject_Z (Z.of_nat (length (combine x y))).
Proof.
  intro H. unfold Qlen. rewrite length_combine, <- H, Nat.min_id. reflexivity.
Qed.

Lemma cnt_cons (p : Q * Q) (l : list (Q * Q)) : cnt (p :: l) == 1 + cnt l.
Proof.
  unfold cnt. cbn [length]. rewrite Nat2Z.inj_succ, <- Z.add_1_l.
  rewrite inject_Z_plus. reflexivity.
Qed.

Lemma sum_of_cons (f : Q * Q -> Q) (p : Q * Q) (l : list (Q * Q)) :
  sum_of f (p :: l) = f p + sum_of f l.
Proof. reflexivity. Qed.

Lemma expand_residuals (a b : Q) (l : list (Q * Q)) :
  sum_of (fun p => (snd p - (a * fst p + b)) * (snd p - (a * fst p + b))) l ==
  sum_of (fun p => snd p * snd p) l
  - 2 * a * sum_of (fun p => fst p * snd p) l
  - 2 * b * sum_of snd l
  + a * a * sum_of (fun p => fst p * fst p) l
  + 2 * a * b * sum_of fst l
  + cnt l * b * b.
Proof.
  induction l as [|p l IH].
  - unfold sum_of, cnt. simpl. ring.
  - rewrite !sum_of_cons, cnt_cons, IH. ring.
Qed.

Lemma expand_cross (t0 m0 : Q) (l : list (Q * Q)) :
  sum_of (fun p => (fst p - t0) * (snd p - m0)) l ==
  sum_of (fun p => fst p * snd p) l
  - t0 * sum_of snd l - m0 * sum_of fst l + cnt l * t0 * m0.
Proof.
  induction l as [|p l IH].
  - unfold sum_of, cnt. simpl. ring.
  - rewrite !sum_of_cons, cnt_cons, IH. ring.
Qed.

(** [sxy] and [sxx] through the sums over the paired samples. *)
Lemma sxy_sums (x y : list Q) :
  length x = length y ->
  sxy x y ==
  cnt (combine x y) * sum_of (fun p => fst p * snd p) (combine x y)
  - sum_of fst (combine x y) * sum_of snd (combine x y).
Proof.
  intro H. unfold sxy.
  rewrite (np_sum_map_fst x y H), (np_sum_map_snd x y H), (Qlen_combine x y H).
  reflexivity.
Qed.

Lemma sxx_sums (x y : list Q) :
  length x = length y ->
  sxx x ==
  cnt (combine x y) * sum_of (fun p => fst p * fst p) (combine x y)
  - sum_of fst (combine x y) * sum_of fst (combine x y).
Proof.
  intro H. unfold sxx.
  rewrite (np_sum_map_fst x y H), (dot_self_combine x y H), (Qlen_combine x y H).
  reflexivity.
Qed.

(** Adding a sample to the front. *)
Lemma sxy_cons (t0 m0 : Q) (x y : list Q) :
  length x = length y ->
  sxy (t0 :: x) (m0 :: y) ==
  sxy x y + sum_of (fun p => (fst p - t0) * (snd p - m0)) (combine x y).
Proof.
  intro H.
  rewrite (sxy_sums (t0 :: x) (m0 :: y)) by (simpl; congruence).
  rewrite (sxy_sums x y H), expand_cross.
  cbn [combine]. rewrite !sum_of_cons, cnt_cons. cbn [fst snd]. ring.
Qed.

Lemma sxx_as_sxy (x : list Q) : sxx x = sxy x x.
Proof. reflexivity. Qed.

Lemma sum_of_nonneg (f : Q * Q -> Q) (l : list (Q * Q)) :
  Forall (fun p => 0 <= f p) l -> 0 <= sum_of f l.
Proof.
  induction 1 as [|p l Hp _ IH].
  - unfold sum_of. simpl. lra.
  - rewrite sum_of_cons. lra.
Qed.

Lemma sum_of_pos (f : Q * Q -> Q) (l : list (Q * Q)) :
  l <> [] -> Forall (fun p => 0 < f p) l -> 0 < sum_of f l.
Proof.
  intros Hne H. destruct H as [|p l Hp Hl]; [congruence|].
  rewrite sum_of_cons.
  assert (0 <= sum_of f l).
  { apply sum_of_nonneg. eapply Forall_impl; [|exact Hl].
    intros q Hq. simpl in Hq. lra. }
  lra.
Qed.

Lemma sum_of_pos_exists (f : Q * Q -> Q) (l : list (Q * Q)) :
  Forall (fun p => 0 <= f p) l -> Exists (fun p => 0 < f p) l ->
  0 < sum_of f l.
Proof.
  intros Hall Hex. induction Hex as [p l Hp|p l Hex IH].
  - rewrite sum_of_cons. inversion Hall; subst.
    pose proof (sum_of_nonneg f l H2). lra.
  - rewrite sum_of_cons. inversion Hall; subst. specialize (IH H2). lra.
Qed.

Lemma in_combine_same (x : list Q) (u v : Q) :
  In (u, v) (combine x x) -> u = v.
Proof.
  induction x as [|a x IH]; simpl; [tauto|].
  intros [H|H]; [congruence|auto].
Qed.

Lemma square_nonneg (u : Q) : 0 <= u * u.
Proof. nra. Qed.

Lemma sxx_nonneg (x : list Q) : 0 <= sxx x.
Proof.
  induction x as [|t0 x IH].
  - unfold sxx, dot, Qlen. simpl. lra.
  - rewrite sxx_as_sxy, sxy_cons by reflexivity. rewrite <- sxx_as_sxy.
    assert (0 <= sum_of (fun p => (fst p - t0) * (snd p - t0)) (combine x x)).
    { apply sum_of_nonneg. apply Forall_forall. intros [u v] Hin.
      apply in_combine_same in Hin. subst v. cbn [fst snd].
      apply square_nonneg. }
    lra.
Qed.

(** Two different abscissae make the design full rank. *)
Lemma sxx_pos (x : list Q) (u v : Q) :
  In u x -> In v x -> ~ u == v -> 0 < sxx x.
Proof.
  intros Hu Hv Huv.
  destruct x as [|t0 x]; [destruct Hu|].
  rewrite sxx_as_sxy, sxy_cons by reflexivity. rewrite <- sxx_as_sxy.
  pose proof (sxx_nonneg x) as Hx.
  assert (Hex : exists w, In w x /\ ~ w == t0).
  { destruct Hu as [Hu|Hu], Hv as [Hv|Hv]; subst.
    - exfalso. apply Huv. reflexivity.
    - exists v. split; [assumption|]. intro E. apply Huv. symmetry. exact E.
    - exists u. split; assumption.
    - destruct (Qeq_dec u t0) as [E|E].
      + exists v. split; [assumption|]. intro E'. apply Huv.
        rewrite E, E'. reflexivity.
      + exists u. split; assumption. }
  destruct Hex as (w & Hw & Hne).
  assert (0 < sum_of (fun p => (fst p - t0) * (snd p - t0)) (combine x x)).
  { apply sum_of_pos_exists.
    - apply Forall_forall. intros [a b] Hin.
      apply in_combine_same in Hin. subst b. cbn [fst snd].
      apply square_nonneg.
    - apply Exists_exists. exists (w, w). split.
      + clear - Hw. induction x as [|a x IH]; simpl in *; [tauto|].
        destruct Hw as [->|Hw]; [left; reflexivity|right; auto].
      + cbn [fst snd].
        assert (~ w - t0 == 0) by (intro E; apply Hne; lra).
        nra. }
  lra.
Qed.

(** ** The fitted line is the least-squares line *)

Lemma quad_gap (n Sx Sy Sxx Sxy Syy a b a' b' : Q) :
  a * Sxx + b * Sx == Sxy ->
  a * Sx + n * b == Sy ->
  n * (quad n Sx Sy Sxx Sxy Syy a' b' - quad n Sx Sy Sxx Sxy Syy a b) ==
  (n * (b' - b) + (a' - a) * Sx) * (n * (b' - b) + (a' - a) * Sx)
  + (a' - a) * (a' - a) * (n * Sxx - Sx * Sx).
Proof.
  intros H1 H2. unfold quad. rewrite <- H1, <- H2. ring.
Qed.

Lemma quad_minimum (n Sx Sy Sxx Sxy Syy a b a' b' : Q) :
  0 < n -> 0 < n * Sxx - Sx * Sx ->
  a * Sxx + b * Sx == Sxy ->
  a * Sx + n * b == Sy ->
  quad n Sx Sy Sxx Sxy Syy a b <= quad n Sx Sy Sxx Sxy Syy a' b'.
Proof.
  intros Hn HD H1 H2.
  pose proof (quad_gap n Sx Sy Sxx Sxy Syy a b a' b' H1 H2) as G.
  pose proof (square_nonneg (n * (b' - b) + (a' - a) * Sx)) as S1.
  pose proof (square_nonneg (a' - a)) as S2.
  assert (0 <= (a' - a) * (a' - a) * (n * Sxx - Sx * Sx)) by nra.
  nra.
Qed.

Lemma quad_unique (n Sx Sy Sxx Sxy Syy a b a' b' : Q) :
  0 < n -> 0 < n * Sxx - Sx * Sx ->
  a * Sxx + b * Sx == Sxy ->
  a * Sx + n * b == Sy ->
  quad n Sx Sy Sxx Sxy Syy a' b' <= quad n Sx Sy Sxx Sxy Syy a b ->
  a' == a.
Proof.
  intros Hn HD H1 H2 Hle.
  pose proof (quad_gap n Sx Sy Sxx Sxy Syy a b a' b' H1 H2) as G.
  pose proof (square_nonneg (n * (b' - b) + (a' - a) * Sx)) as S1.
  pose proof (square_nonneg (a' - a)) as S2.
  assert (Hz : (a' - a) * (a' - a) * (n * Sxx - Sx * Sx) <= 0) by nra.
  assert (Hsq : (a' - a) * (a' - a) <= 0) by nra.
  destruct (Qeq_dec (a' - a) 0) as [E|E]; [lra|].
  exfalso. assert (0 < (a' - a) * (a' - a)) by nra. lra.
Qed.

Lemma residual_ss_quad (x y : list Q) (a b : Q) :
  residual_ss x y a b ==
  quad (cnt (combine x y)) (sum_of fst (combine x y))
       (sum_of snd (combine x y))
       (sum_of (fun p => fst p * fst p) (combine x y))
       (sum_of (fun p => fst p * snd p) (combine x y))
       (sum_of (fun p => snd p * snd p) (combine x y)) a b.
Proof. unfold residual_ss, quad. apply expand_residuals. Qed.

Lemma sxx_pos_nonempty (x : list Q) : 0 < sxx x -> x <> [].
Proof.
  intros H E. subst x. unfold sxx, dot, Qlen in H. simpl in H. lra.
Qed.

Lemma normal_equations (x y : list Q) :
  length x = length y -> 0 < sxx x ->
  let l := combine x y in
  fit_slope x y * sum_of (fun p => fst p * fst p) l
    + fit_intercept x y * sum_of fst l == sum_of (fun p => fst p * snd p) l
  /\ fit_slope x y * sum_of fst l + cnt l * fit_intercept x y == sum_of snd l.
Proof.
  intros H HD l. subst l.
  pose proof (Qlen_pos x (sxx_pos_nonempty x HD)) as Hn.
  unfold fit_intercept, fit_slope.
  rewrite <- (np_sum_map_fst x y H), <- (np_sum_map_snd x y H).
  rewrite <- (dot_self_combine x y H).
  change (sum_of (fun p => fst p * snd p) (combine x y)) with (dot x y).
  unfold cnt. rewrite <- (Qlen_combine x y H).
  unfold sxy, sxx in *.
  split; field; split; lra.
Qed.

Lemma cnt_combine_pos (x y : list Q) :
  length x = length y -> 0 < sxx x -> 0 < cnt (combine x y).
Proof.
  intros H HD. unfold cnt. rewrite <- (Qlen_combine x y H).
  apply Qlen_pos, sxx_pos_nonempty, HD.
Qed.

Lemma fit_is_least_squares (x y : list Q) :
  length x = length y -> 0 < sxx x ->
  least_squares_line x y (fit_slope x y) (fit_intercept x y).
Proof.
  intros H HD a' b'. rewrite !residual_ss_quad.
  destruct (normal_equations x y H HD) as [N1 N2].
  apply quad_minimum; try assumption.
  - apply cnt_combine_pos; assumption.
  - rewrite <- (sxx_sums x y H). exact HD.
Qed.

Lemma least_squares_slope_unique (x y : list Q) (a b : Q) :
  length x = length y -> 0 < sxx x ->
  least_squares_line x y a b -> a == fit_slope x y.
Proof.
  intros H HD Hmin.
  specialize (Hmin (fit_slope x y) (fit_intercept x y)).
  rewrite !residual_ss_quad in Hmin.
  destruct (normal_equations x y H HD) as [N1 N2].
  refine (quad_unique _ _ _ _ _ _ _ _ _ b _ _ N1 N2 Hmin).
  - apply cnt_combine_pos; assumption.
  - rewrite <- (sxx_sums x y H). exact HD.
Qed.

Lemma polyfit1_full_rank (x y : list Q) :
  length x = length y -> 0 < sxx x ->
  polyfit1 x y = Returns (fit_slope x y, fit_intercept x y).
Proof.
  intros H HD. unfold polyfit1.
  pose proof (sxx_pos_nonempty x HD) as Hne.
  assert (E0 : (length x =? 0)%nat = false)
    by (destruct x; [congruence|reflexivity]).
  rewrite E0, <- H, Nat.eqb_refl. cbn [negb].
  destruct (Qeq_bool (sxx x) 0) eqn:E.
  - apply Qeq_bool_eq in E. lra.
  - reflexivity.
Qed.

Lemma on_line_length (k c : Q) (x y : list Q) :
  on_line k c x y -> length x = length y.
Proof. induction 1; simpl; congruence. Qed.

Lemma on_line_sums (k c : Q) (x y : list Q) :
  on_line k c x y ->
  np_sum y == k * np_sum x + Qlen x * c /\
  dot x y == k * dot x x + c * np_sum x.
Proof.
  induction 1 as [|t m x y Hm _ [IH1 IH2]].
  - unfold dot, Qlen. simpl. split; ring.
  - unfold dot in *. cbn [np_sum fold_right combine map fst snd].
    fold (np_sum x). fold (np_sum y).
    change (fold_right Qplus 0 (map (fun p => fst p * snd p) (combine x y)))
      with (np_sum (map (fun p => fst p * snd p) (combine x y))).
    change (fold_right Qplus 0 (map (fun p => fst p * snd p) (combine x x)))
      with (np_sum (map (fun p => fst p * snd p) (combine x x))).
    rewrite Qlen_cons, IH1, IH2, Hm. split; ring.
Qed.

Lemma on_line_sxy (k c : Q) (x y : list Q) :
  on_line k c x y -> sxy x y == k * sxx x.
Proof.
  intro H. destruct (on_line_sums k c x y H) as [E1 E2].
  unfold sxy, sxx. rewrite E1, E2. ring.
Qed.

Lemma on_line_slope (k c : Q) (x y : list Q) :
  on_line k c x y -> 0 < sxx x -> fit_slope x y == k.
Proof.
  intros H HD. unfold fit_slope. rewrite (on_line_sxy k c x y H).
  field. lra.
Qed.

(** ** Monotone series *)

Lemma rising_cross (p q : Q * Q) :
  rising p q -> 0 < (fst q - fst p) * (snd q - snd p).
Proof. unfold rising. intros [[H1 H2]|[H1 H2]]; nra. Qed.

Lemma falling_cross (p q : Q * Q) :
  falling p q -> (fst q - fst p) * (snd q - snd p) < 0.
Proof. unfold falling. intros [[H1 H2]|[H1 H2]]; nra. Qed.

Lemma sum_of_opp (f : Q * Q -> Q) (l : list (Q * Q)) :
  sum_of (fun p => - f p) l == - sum_of f l.
Proof.
  induction l as [|p l IH].
  - unfold sum_of. simpl. ring.
  - rewrite !sum_of_cons, IH. ring.
Qed.

Lemma rising_sxy_nonneg (x y : list Q) :
  length x = length y -> ForallOrdPairs rising (combine x y) ->
  0 <= sxy x y.
Proof.
  revert y. induction x as [|t0 x IH]; intros [|m0 y] H F;
    try discriminate.
  injection H as H. cbn [combine] in F. inversion F as [|p l Hp Hl]; subst.
    rewrite sxy_cons by exact H. specialize (IH y H Hl).
    assert (0 <= sum_of (fun p => (fst p - t0) * (snd p - m0)) (combine x y)).
    { apply sum_of_nonneg. eapply Forall_impl; [|exact Hp].
      intros q Hq. apply rising_cross in Hq. cbn [fst snd] in Hq. lra. }
    lra.
Qed.

Lemma rising_sxy_pos (x y : list Q) :
  length x = length y -> (2 <= length x)%nat ->
  ForallOrdPairs rising (combine x y) -> 0 < sxy x y.
Proof.
  intros H Hn F.
  destruct x as [|t0 x], y as [|m0 y]; try discriminate; simpl in Hn;
    [lia|].
  injection H as H. cbn [combine] in F. inversion F as [|p l Hp Hl]; subst.
  rewrite sxy_cons by exact H.
  pose proof (rising_sxy_nonneg x y H Hl).
  assert (0 < sum_of (fun p => (fst p - t0) * (snd p - m0)) (combine x y)).
  { apply sum_of_pos.
    - destruct x, y; simpl in *; try discriminate; lia.
    - eapply Forall_impl; [|exact Hp].
      intros q Hq. apply rising_cross in Hq. exact Hq. }
  lra.
Qed.

Lemma falling_sxy_nonpos (x y : list Q) :
  length x = length y -> ForallOrdPairs falling (combine x y) ->
  sxy x y <= 0.
Proof.
  revert y. induction x as [|t0 x IH]; intros [|m0 y] H F;
    try discriminate.
  injection H as H. cbn [combine] in F. inversion F as [|p l Hp Hl]; subst.
    rewrite sxy_cons by exact H. specialize (IH y H Hl).
    assert (0 <= sum_of (fun p => - ((fst p - t0) * (snd p - m0)))
                        (combine x y)) as Hs.
    { apply sum_of_nonneg. eapply Forall_impl; [|exact Hp].
      intros q Hq. apply falling_cross in Hq. cbn [fst snd] in Hq. lra. }
    rewrite sum_of_opp in Hs. lra.
Qed.

Lemma falling_sxy_neg (x y : list Q) :
  length x = length y -> (2 <= length x)%nat ->
  ForallOrdPairs falling (combine x y) -> sxy x y < 0.
Proof.
  intros H Hn F.
  destruct x as [|t0 x], y as [|m0 y]; try discriminate; simpl in Hn;
    [lia|].
  injection H as H. cbn [combine] in F. inversion F as [|p l Hp Hl]; subst.
  rewrite sxy_cons by exact H.
  pose proof (falling_sxy_nonpos x y H Hl).
  assert (0 < sum_of (fun p => - ((fst p - t0) * (snd p - m0)))
                     (combine x y)) as Hs.
  { apply sum_of_pos.
    - destruct x, y; simpl in *; try discriminate; lia.
    - eapply Forall_impl; [|exact Hp].
      intros q Hq. apply falling_cross in Hq. cbn [fst snd] in Hq. lra. }
  rewrite sum_of_opp in Hs. lra.
Qed.

(** A monotone series of two or more samples has two different times. *)
Lemma monotone_full_rank (x y : list Q) :
  length x = length y -> (2 <= length x)%nat ->
  ForallOrdPairs rising (combine x y) \/
  ForallOrdPairs falling (combine x y) ->
  0 < sxx x.
Proof.
  intros H Hn F.
  destruct x as [|t0 [|t1 x]], y as [|m0 [|m1 y]]; try discriminate;
    simpl in Hn; try lia.
  apply (sxx_pos _ t0 t1); [left; reflexivity|right; left; reflexivity|].
  cbn [combine] in F.
  destruct F as [F|F]; inversion F as [|p l Hp Hl]; subst;
    inversion Hp as [|q l' Hq _]; subst;
    [unfold rising in Hq|unfold falling in Hq]; cbn [fst snd] in Hq;
    intro E; lra.
Qed.

(** ** analyze_brightness *)

(** On finite entries the reductions over doubles are the exact ones. *)
Lemma float_sum_finite (l : list Q) : float_sum (map Num l) = Num (np_sum l).
Proof.
  induction l as [|x l IH]; [reflexivity|].
  cbn [map]. unfold float_sum in *. cbn [fold_right]. rewrite IH.
  reflexivity.
Qed.

Lemma float_mean_finite (l : list Q) :
  l <> [] -> float_mean (map Num l) = Num (np_mean l).
Proof.
  destruct l as [|x l]; [congruence|]. intros _.
  unfold float_mean. cbn [map].
  change (Num x :: map Num l) with (map Num (x :: l)).
  rewrite float_sum_finite, length_map. reflexivity.
Qed.



(** The fields of the result, one by one. *)
Lemma analyze_brightness_fields (np_sqrt : Q -> Q) (lc : RawLightCurve) :
  analyze_brightness np_sqrt (Some lc)
  = Some {| br_r_mean :=
              if (0 <? length (raw_r lc))%nat then float_mean (raw_r lc)
              else NaN;
            br_r_min :=
              if (0 <? length (raw_r lc))%nat then float_min (raw_r lc)
              else NaN;
            br_r_std :=
              if (0 <? length (raw_r lc))%nat
              then float_std np_sqrt (raw_r lc) else NaN;
            br_g_mean :=
              if (0 <? length (raw_g lc))%nat then float_mean (raw_g lc)
              else NaN;
            br_g_min :=
              if (0 <? length (raw_g lc))%nat then float_min (raw_g lc)
              else NaN;
            br_priority :=
              priority_of (if (0 <? length (raw_r lc))%nat
                           then float_mean (raw_r lc) else NaN) |}.
Proof.
  unfold analyze_brightness.
  destruct (0 <? length (raw_r lc))%nat, (0 <? length (raw_g lc))%nat;
    reflexivity.
Qed.

Lemma nonempty_ltb {A : Type} (l : list A) :
  l <> [] -> (0 <? length l)%nat = true.
Proof. destruct l; [congruence|reflexivity]. Qed.

Lemma priority_of_num (m : Q) : priority_of (Num m) = tier_of_mean m.
Proof.
  unfold priority_of, tier_of_mean, flt. cbn [isnan negb].
  destruct (Qlt_le_dec m 15.5) as [H1|H1].
  { apply Qlt_bool_iff in H1. now rewrite H1. }
  apply Qlt_bool_false_iff in H1. rewrite H1.
  destruct (Qlt_le_dec m 16.5) as [H2|H2].
  { apply Qlt_bool_iff in H2. now rewrite H2. }
  apply Qlt_bool_false_iff in H2. rewrite H2.
  destruct (Qlt_le_dec m 17.0) as [H3|H3].
  { apply Qlt_bool_iff in H3. now rewrite H3. }
  apply Qlt_bool_false_iff in H3. now rewrite H3.
Qed.


Lemma tier_of_mean_cases (m : Q) :
  (m < 15.5 -> tier_of_mean m = "HIGH"%string) /\
  (15.5 <= m -> m < 16.5 -> tier_of_mean m = "MEDIUM"%string) /\
  (16.5 <= m -> m < 17.0 -> tier_of_mean m = "LOW"%string) /\
  (17.0 <= m -> tier_of_mean m = "TOO_FAINT"%string).
Proof.
  unfold tier_of_mean.
  destruct (Qlt_le_dec m 15.5); destruct (Qlt_le_dec m 16.5);
    destruct (Qlt_le_dec m 17.0); repeat split; intros;
    try reflexivity; exfalso; lra.
Qed.

Lemma analyze_brightness_nonempty (np_sqrt : Q -> Q) (lc : LightCurve) :
  lc_r lc <> [] ->
  exists res,
    analyze_brightness np_sqrt (Some (raw lc)) = Some res /\
    br_r_mean res = Num (np_mean (lc_r lc)) /\
    br_priority res = tier_of_mean (np_mean (lc_r lc)).
Proof.
  intro Hne. rewrite analyze_brightness_fields.
  eexists. split; [reflexivity|]. cbn [br_r_mean br_priority raw raw_r].
  rewrite length_map, (nonempty_ltb _ Hne), (float_mean_finite _ Hne).
  split; [reflexivity|apply priority_of_num].
Qed.


Lemma analyze_brightness_empty (np_sqrt : Q -> Q) (lc : LightCurve) :
  lc_r lc = [] ->
  exists res,
    analyze_brightness np_sqrt (Some (raw lc)) = Some res /\
    br_priority res = "UNKNOWN"%string /\
    br_r_mean res = NaN /\ br_r_min res = NaN /\ br_r_std res = NaN.
Proof.
  intro Er. rewrite analyze_brightness_fields.
  eexists. split; [reflexivity|].
  cbn [br_r_mean br_r_min br_r_std br_priority raw raw_r]. rewrite Er.
  repeat split.
Qed.

Lemma analyze_brightness_present (np_sqrt : Q -> Q)
  (lc : RawLightCurve) :
  exists res, analyze_brightness np_sqrt (Some lc) = Some res.
Proof. rewrite analyze_brightness_fields. eexists. reflexivity. Qed.

(** C3: with a non-empty r band the priority is the first tier, in ascending
    order, whose exclusive upper bound exceeds the r-band mean: below 15.5
    HIGH, from 15.5 and below 16.5 MEDIUM, from 16.5 and below 17.0 LOW,
    from 17.0 on TOO_FAINT; a mean of exactly 15.5 is MEDIUM and a mean of
    exactly 17.0 is TOO_FAINT. *)
Theorem analyze_brightness_priority_tiers
  (np_sqrt : Q -> Q) (lc : LightCurve) :
  lc_r lc <> [] ->
  exists res,
    analyze_brightness np_sqrt (Some (raw lc)) = Some res /\
    br_r_mean res = Num (np_mean (lc_r lc)) /\
    let m := np_mean (lc_r lc) in
    (m < 15.5 -> br_priority res = "HIGH"%string) /\
    (15.5 <= m -> m < 16.5 -> br_priority res = "MEDIUM"%string) /\
    (16.5 <= m -> m < 17.0 -> br_priority res = "LOW"%string) /\
    (17.0 <= m -> br_priority res = "TOO_FAINT"%string) /\
    (m == 15.5 -> br_priority res = "MEDIUM"%string) /\
    (m == 17.0 -> br_priority res = "TOO_FAINT"%string).
Proof.
  intro Hne.
  destruct (analyze_brightness_nonempty np_sqrt lc Hne) as (res & E & Em & Ep).
  exists res. split; [exact E|]. split; [exact Em|].
  intro m. subst m. rewrite Ep.
  destruct (tier_of_mean_cases (np_mean (lc_r lc))) as (T1 & T2 & T3 & T4).
  repeat split; intros; auto.
  - apply T2; lra.
  - apply T4; lra.
Qed.








(** ** analyze_fading *)

Lemma two_epochs_full_rank (x : list Q) : two_epochs x -> 0 < sxx x.
Proof. intros (u & v & Hu & Hv & Huv). exact (sxx_pos x u v Hu Hv Huv). Qed.

Lemma analyze_fading_short (lc : LightCurve) (name : string) :
  (length (lc_r lc) < 5)%nat -> analyze_fading (Some lc) name = Returns None.
Proof.
  intro H. unfold analyze_fading.
  apply Nat.ltb_lt in H. now rewrite H.
Qed.

Lemma analyze_fading_fit (lc : LightCurve) (name : string) :
  (5 <= length (lc_r lc))%nat ->
  length (lc_times_r lc) = length (lc_r lc) ->
  0 < sxx (lc_times_r lc) ->
  analyze_fading (Some lc) name =
  Returns (Some
    {| fr_slope_mag_per_day := fit_slope (lc_times_r lc) (lc_r lc);
       fr_mag_change_1yr := fit_slope (lc_times_r lc) (lc_r lc) * 365;
       fr_is_fading :=
         Qlt_bool 0.2 (fit_slope (lc_times_r lc) (lc_r lc) * 365);
       fr_status := fading_status_of (fit_slope (lc_times_r lc) (lc_r lc));
       fr_n_observations := length (lc_r lc) |}).
Proof.
  intros Hn Hlen HD. unfold analyze_fading.
  assert (E : (length (lc_r lc) <? 5)%nat = false) by (apply Nat.ltb_ge; lia).
  rewrite E, (polyfit1_full_rank _ _ Hlen HD). reflexivity.
Qed.

Lemma Qlt_bool_proper (x x' y y' : Q) :
  x == x' -> y == y' -> Qlt_bool x y = Qlt_bool x' y'.
Proof.
  intros Hx Hy.
  destruct (Qlt_bool x y) eqn:E1, (Qlt_bool x' y') eqn:E2; try reflexivity.
  - apply Qlt_bool_iff in E1. apply Qlt_bool_false_iff in E2. exfalso. lra.
  - apply Qlt_bool_iff in E2. apply Qlt_bool_false_iff in E1. exfalso. lra.
Qed.

(** C1: fewer than 5 r-band samples (or no light curve) give no result; with
    at least 5 samples, one timestamp per magnitude and at least two
    different times, the result's mag_change_1yr is 365 times the slope of
    the least-squares line of magnitude against time, and is_fading holds
    exactly when mag_change_1yr > 0.2; 5 samples on a line of slope 0.001
    give mag_change_1yr = 0.365 and is_fading. *)
Theorem analyze_fading_least_squares :
  (forall name, analyze_fading None name = Returns None) /\
  (forall lc name,
      (length (lc_r lc) < 5)%nat ->
      analyze_fading (Some lc) name = Returns None) /\
  (forall lc name,
      (5 <= length (lc_r lc))%nat ->
      length (lc_times_r lc) = length (lc_r lc) ->
      two_epochs (lc_times_r lc) ->
      exists res,
        analyze_fading (Some lc) name = Returns (Some res) /\
        (exists b, least_squares_line (lc_times_r lc) (lc_r lc)
                                      (fr_slope_mag_per_day res) b) /\
        (forall a b,
            least_squares_line (lc_times_r lc) (lc_r lc) a b ->
            fr_mag_change_1yr res == a * 365) /\
        (fr_is_fading res = true <-> 0.2 < fr_mag_change_1yr res)) /\
  (forall lc name c,
      length (lc_r lc) = 5%nat ->
      on_line 0.001 c (lc_times_r lc) (lc_r lc) ->
      two_epochs (lc_times_r lc) ->
      exists res,
        analyze_fading (Some lc) name = Returns (Some res) /\
        fr_mag_change_1yr res == 0.365 /\
        fr_is_fading res = true).
Proof.
  split; [reflexivity|]. split; [exact analyze_fading_short|]. split.
  - intros lc name Hn Hlen H2.
    pose proof (two_epochs_full_rank _ H2) as HD.
    eexists. split; [apply analyze_fading_fit; assumption|].
    cbn [fr_slope_mag_per_day fr_mag_change_1yr fr_is_fading].
    split; [|split].
    + exists (fit_intercept (lc_times_r lc) (lc_r lc)).
      apply fit_is_least_squares; assumption.
    + intros a b Hls.
      rewrite (least_squares_slope_unique _ _ a b Hlen HD Hls). reflexivity.
    + apply Qlt_bool_iff.
  - intros lc name c Hn Hline H2.
    pose proof (two_epochs_full_rank _ H2) as HD.
    pose proof (on_line_length _ _ _ _ Hline) as Hlen.
    eexists. split; [apply analyze_fading_fit; try assumption; lia|].
    cbn [fr_mag_change_1yr fr_is_fading].
    pose proof (on_line_slope _ _ _ _ Hline HD) as Hs.
    split.
    + rewrite Hs. reflexivity.
    + apply Qlt_bool_iff. rewrite Hs. reflexivity.
Qed.

Lemma fading_status_stable (slope : Q) :
  fading_status_of slope = "STABLE"%string <-> Qabs slope < 0.0001.
Proof.
  unfold fading_status_of.
  destruct (Qlt_bool (Qabs slope) 0.0001) eqn:E.
  - apply Qlt_bool_iff in E. tauto.
  - apply Qlt_bool_false_iff in E.
    split; [|intro; exfalso; lra].
    destruct (Qlt_bool 0.0001 slope); discriminate.
Qed.

Lemma fading_status_fading (slope : Q) :
  0.0001 < slope ->
  fading_status_of slope
  = "FADING (brightening in mag = getting dimmer)"%string.
Proof.
  intro H. unfold fading_status_of.
  assert (E : Qlt_bool (Qabs slope) 0.0001 = false).
  { apply Qlt_bool_false_iff. rewrite Qabs_pos; lra. }
  rewrite E. apply Qlt_bool_iff in H. now rewrite H.
Qed.

Lemma fading_status_brightening (slope : Q) :
  slope <= - 0.0001 ->
  fading_status_of slope
  = "BRIGHTENING (dimming in mag = getting brighter)"%string.
Proof.
  intro H. unfold fading_status_of.
  assert (E : Qlt_bool (Qabs slope) 0.0001 = false).
  { apply Qlt_bool_false_iff. rewrite Qabs_neg; lra. }
  rewrite E.
  assert (E' : Qlt_bool 0.0001 slope = false)
    by (apply Qlt_bool_false_iff; lra).
  now rewrite E'.
Qed.

Lemma analyze_fading_inv (lc : LightCurve) (name : string) (res : FadingResult) :
  analyze_fading (Some lc) name = Returns (Some res) ->
  (5 <= length (lc_r lc))%nat /\
  fr_status res = fading_status_of (fr_slope_mag_per_day res) /\
  fr_mag_change_1yr res = fr_slope_mag_per_day res * 365 /\
  fr_is_fading res = Qlt_bool 0.2 (fr_mag_change_1yr res) /\
  fr_n_observations res = length (lc_r lc).
Proof.
  unfold analyze_fading.
  destruct (length (lc_r lc) <? 5)%nat eqn:E; [discriminate|].
  apply Nat.ltb_ge in E.
  destruct (polyfit1 (lc_times_r lc) (lc_r lc)) as [[a b]| |];
    cbn [bind]; try discriminate.
  intro H. injection H as <-. cbn. repeat split; auto.
Qed.

Ltac ordered_pairs :=
  repeat first
    [ apply FOP_nil
    | apply FOP_cons
    | apply Forall_nil
    | apply Forall_cons
    | (left; split; apply Qlt_bool_iff; reflexivity)
    | (right; split; apply Qlt_bool_iff; reflexivity) ].

Lemma lc_slow_rise_rising :
  ForallOrdPairs rising
    (combine (lc_times_r lc_slow_rise) (lc_r lc_slow_rise)).
Proof. cbn. ordered_pairs. Qed.

(** C4, as stated, fails: a series whose magnitude rises strictly, by
    0.00001 mag/day, is reported STABLE and not FADING. *)
Lemma fading_status_counterexample :
  ~ (forall lc name res,
        (5 <= length (lc_r lc))%nat ->
        ForallOrdPairs rising (combine (lc_times_r lc) (lc_r lc)) ->
        analyze_fading (Some lc) name = Returns (Some res) ->
        String.prefix "FADING" (fr_status res) = true).
Proof.
  intro H.
  assert (E : exists res,
             analyze_fading (Some lc_slow_rise) EmptyString = Returns (Some res) /\
             fr_status res = "STABLE"%string).
  { eexists. split; reflexivity. }
  destruct E as (res & E & Es).
  specialize (H lc_slow_rise EmptyString res ltac:(cbn; lia)
                lc_slow_rise_rising E).
  rewrite Es in H. discriminate.
Qed.

(** The label names the direction only: two series of different slopes
    carry the same label. *)
Lemma fading_status_has_no_rate :
  exists ra rb,
    analyze_fading (Some lc_rise_a) EmptyString = Returns (Some ra) /\
    analyze_fading (Some lc_rise_b) EmptyString = Returns (Some rb) /\
    ~ fr_slope_mag_per_day ra == fr_slope_mag_per_day rb /\
    fr_status ra = fr_status rb.
Proof.
  do 2 eexists. split; [reflexivity|]. split; [reflexivity|].
  split; [|reflexivity].
  cbn [fr_slope_mag_per_day]. intro E. apply Qeq_bool_iff in E.
  vm_compute in E. discriminate.
Qed.

(** At a slope of exactly 0.0001 mag/day the label is BRIGHTENING. *)
Lemma fading_status_at_boundary :
  exists res,
    analyze_fading (Some lc_rise_boundary) EmptyString = Returns (Some res) /\
    fr_slope_mag_per_day res == 0.0001 /\
    fr_status res = "BRIGHTENING (dimming in mag = getting brighter)"%string.
Proof.
  eexists. split; [reflexivity|]. split; [|reflexivity].
  apply Qeq_bool_iff. reflexivity.
Qed.

(** C4, amended: the status is STABLE exactly when |slope| < 0.0001; a
    slope above 0.0001 gives the fixed FADING label and a slope of -0.0001
    or below the fixed BRIGHTENING label; the labels name the direction and
    carry no rate.  A series whose magnitude rises strictly with time has a
    positive slope and mag_change_1yr; one whose magnitude falls strictly
    has negative ones and is BRIGHTENING or, inside the dead zone,
    STABLE. *)
Theorem analyze_fading_status_dead_zone :
  (forall lc name res,
      analyze_fading (Some lc) name = Returns (Some res) ->
      let slope := fr_slope_mag_per_day res in
      (fr_status res = "STABLE"%string <-> Qabs slope < 0.0001) /\
      (0.0001 < slope ->
       fr_status res
       = "FADING (brightening in mag = getting dimmer)"%string) /\
      (slope <= - 0.0001 ->
       fr_status res
       = "BRIGHTENING (dimming in mag = getting brighter)"%string) /\
      fr_mag_change_1yr res = slope * 365) /\
  (forall lc name,
      (5 <= length (lc_r lc))%nat ->
      length (lc_times_r lc) = length (lc_r lc) ->
      ForallOrdPairs rising (combine (lc_times_r lc) (lc_r lc)) ->
      exists res,
        analyze_fading (Some lc) name = Returns (Some res) /\
        0 < fr_slope_mag_per_day res /\
        0 < fr_mag_change_1yr res) /\
  (forall lc name,
      (5 <= length (lc_r lc))%nat ->
      length (lc_times_r lc) = length (lc_r lc) ->
      ForallOrdPairs falling (combine (lc_times_r lc) (lc_r lc)) ->
      exists res,
        analyze_fading (Some lc) name = Returns (Some res) /\
        fr_slope_mag_per_day res < 0 /\
        fr_mag_change_1yr res < 0 /\
        (fr_status res
         = "BRIGHTENING (dimming in mag = getting brighter)"%string \/
         fr_status res = "STABLE"%string)).
Proof.
  split; [|split].
  - intros lc name res H.
    destruct (analyze_fading_inv lc name res H) as (_ & Es & Em & _).
    intro slope. subst slope. rewrite Es. repeat split.
    + apply fading_status_stable.
    + apply fading_status_stable.
    + apply fading_status_fading.
    + apply fading_status_brightening.
    + exact Em.
  - intros lc name Hn Hlen F.
    assert (HD : 0 < sxx (lc_times_r lc))
      by (apply (monotone_full_rank _ (lc_r lc)); auto; lia).
    assert (HN : 0 < sxy (lc_times_r lc) (lc_r lc))
      by (apply rising_sxy_pos; auto; lia).
    eexists. split; [apply analyze_fading_fit; assumption|].
    cbn [fr_slope_mag_per_day fr_mag_change_1yr].
    assert (0 < fit_slope (lc_times_r lc) (lc_r lc)).
    { unfold fit_slope. apply Qlt_shift_div_l; lra. }
    split; lra.
  - intros lc name Hn Hlen F.
    assert (HD : 0 < sxx (lc_times_r lc))
      by (apply (monotone_full_rank _ (lc_r lc)); auto; lia).
    assert (HN : sxy (lc_times_r lc) (lc_r lc) < 0)
      by (apply falling_sxy_neg; auto; lia).
    eexists. split; [apply analyze_fading_fit; assumption|].
    cbn [fr_slope_mag_per_day fr_mag_change_1yr fr_status].
    assert (Hs : fit_slope (lc_times_r lc) (lc_r lc) < 0).
    { unfold fit_slope. apply Qlt_shift_div_r; lra. }
    split; [lra|]. split; [lra|].
    destruct (Qlt_le_dec (- 0.0001) (fit_slope (lc_times_r lc) (lc_r lc)))
      as [Hz|Hz].
    + right. apply fading_status_stable. rewrite Qabs_neg; lra.
    + left. apply fading_status_brightening. exact Hz.
Qed.

(** ** Extremes of the times *)

Lemma py_min_spec (a b : Q) :
  (py_min a b = a \/ py_min a b = b) /\ py_min a b <= a /\ py_min a b <= b.
Proof.
  unfold py_min. destruct (Qlt_bool b a) eqn:E.
  - apply Qlt_bool_iff in E. repeat split; auto; lra.
  - apply Qlt_bool_false_iff in E. repeat split; auto; lra.
Qed.

Lemma py_max_spec (a b : Q) :
  (py_max a b = a \/ py_max a b = b) /\ a <= py_max a b /\ b <= py_max a b.
Proof.
  unfold py_max. destruct (Qlt_bool a b) eqn:E.
  - apply Qlt_bool_iff in E. repeat split; auto; lra.
  - apply Qlt_bool_false_iff in E. repeat split; auto; lra.
Qed.

Lemma py_max_Qmax (a b : Q) : py_max a b == Qmax a b.
Proof.
  destruct (py_max_spec a b) as (_ & H1 & H2).
  destruct (py_max_spec a b) as ([E|E] & _ & _);
    destruct (Q.max_spec a b) as [[H H']|[H H']]; rewrite H'; rewrite E in *;
    try reflexivity; lra.
Qed.

Lemma py_min_Qmin (a b : Q) : py_min a b == Qmin a b.
Proof.
  destruct (py_min_spec a b) as (_ & H1 & H2).
  destruct (py_min_spec a b) as ([E|E] & _ & _);
    destruct (Q.min_spec a b) as [[H H']|[H H']]; rewrite H'; rewrite E in *;
    try reflexivity; lra.
Qed.

Lemma fold_py_min (xs : list Q) (x : Q) :
  In (fold_left py_min xs x) (x :: xs) /\
  fold_left py_min xs x <= x /\
  Forall (fun t => fold_left py_min xs x <= t) xs.
Proof.
  revert x. induction xs as [|a xs IH]; intro x; cbn [fold_left].
  - split; [left; reflexivity|]. split; [lra|constructor].
  - destruct (IH (py_min x a)) as (Hin & Hle & Hall).
    destruct (py_min_spec x a) as (Hor & Hx & Ha).
    split; [|split].
    + destruct Hin as [Hin|Hin].
      * rewrite <- Hin. destruct Hor as [->| ->];
          [left; reflexivity|right; left; reflexivity].
      * right; right; exact Hin.
    + lra.
    + constructor; [lra|exact Hall].
Qed.

Lemma fold_py_max (xs : list Q) (x : Q) :
  In (fold_left py_max xs x) (x :: xs) /\
  x <= fold_left py_max xs x /\
  Forall (fun t => t <= fold_left py_max xs x) xs.
Proof.
  revert x. induction xs as [|a xs IH]; intro x; cbn [fold_left].
  - split; [left; reflexivity|]. split; [lra|constructor].
  - destruct (IH (py_max x a)) as (Hin & Hle & Hall).
    destruct (py_max_spec x a) as (Hor & Hx & Ha).
    split; [|split].
    + destruct Hin as [Hin|Hin].
      * rewrite <- Hin. destruct Hor as [->| ->];
          [left; reflexivity|right; left; reflexivity].
      * right; right; exact Hin.
    + lra.
    + constructor; [lra|exact Hall].
Qed.

Lemma np_min_spec (l : list Q) :
  l <> [] -> exists m, np_min l = Returns m /\ list_min l m.
Proof.
  destruct l as [|x xs]; [congruence|]. intros _.
  destruct (fold_py_min xs x) as (Hin & Hle & Hall).
  eexists. split; [reflexivity|]. split; [exact Hin|].
  constructor; assumption.
Qed.

Lemma np_max_spec (l : list Q) :
  l <> [] -> exists m, np_max l = Returns m /\ list_max l m.
Proof.
  destruct l as [|x xs]; [congruence|]. intros _.
  destruct (fold_py_max xs x) as (Hin & Hle & Hall).
  eexists. split; [reflexivity|]. split; [exact Hin|].
  constructor; assumption.
Qed.

Lemma list_min_unique (l : list Q) (m m' : Q) :
  list_min l m -> list_min l m' -> m == m'.
Proof.
  intros [H1 H2] [H1' H2'].
  rewrite Forall_forall in H2, H2'.
  apply Qle_antisym; auto.
Qed.

Lemma list_max_unique (l : list Q) (m m' : Q) :
  list_max l m -> list_max l m' -> m == m'.
Proof.
  intros [H1 H2] [H1' H2'].
  rewrite Forall_forall in H2, H2'.
  apply Qle_antisym; auto.
Qed.

(** ** The common grid *)

Lemma linspace_length (start stop : Q) (num : nat) :
  length (linspace start stop num) = num.
Proof. unfold linspace. now rewrite length_map, length_seq. Qed.

Lemma inject_nat_pos (n : nat) : (0 < n)%nat -> 0 < inject_Z (Z.of_nat n).
Proof.
  intro H. change 0 with (inject_Z 0). rewrite <- Zlt_Qlt. lia.
Qed.

Lemma inject_nat_le (i n : nat) :
  (i <= n)%nat -> inject_Z (Z.of_nat i) <= inject_Z (Z.of_nat n).
Proof. intro H. rewrite <- Zle_Qle. lia. Qed.

Lemma inject_nat_nonneg (i : nat) : 0 <= inject_Z (Z.of_nat i).
Proof. change 0 with (inject_Z 0). rewrite <- Zle_Qle. lia. Qed.

Lemma nth_map_seq (f : nat -> Q) (n i : nat) (d : Q) :
  (i < n)%nat -> nth i (map f (seq 0 n)) d = f i.
Proof.
  intro Hi. rewrite (nth_indep _ d (f 0%nat))
    by (now rewrite length_map, length_seq).
  rewrite map_nth, seq_nth by exact Hi. reflexivity.
Qed.

(** The grid is evenly spaced from [start] to [stop]. *)
Lemma linspace_nth (start stop : Q) (num i : nat) :
  (2 <= num)%nat -> (i < num)%nat ->
  nth i (linspace start stop num) 0 ==
  start + inject_Z (Z.of_nat i)
          * ((stop - start) / inject_Z (Z.of_nat (num - 1))).
Proof.
  intros Hn Hi. unfold linspace. rewrite nth_map_seq by exact Hi.
  destruct (i =? num - 1)%nat eqn:E.
  - apply Nat.eqb_eq in E. subst i.
    assert (E1 : (1 <? num)%nat = true) by (apply Nat.ltb_lt; lia).
    rewrite E1. cbn [andb].
    pose proof (inject_nat_pos (num - 1) ltac:(lia)).
    field. lra.
  - cbn [andb]. ring.
Qed.

Lemma linspace_bounds (start stop : Q) (num : nat) :
  (2 <= num)%nat -> start <= stop ->
  Forall (fun x => start <= x <= stop) (linspace start stop num).
Proof.
  intros Hn Hle. apply Forall_forall. intros x Hin.
  destruct (In_nth _ _ 0 Hin) as (i & Hi & <-).
  rewrite linspace_length in Hi.
  rewrite (linspace_nth start stop num i Hn Hi).
  pose proof (inject_nat_pos (num - 1) ltac:(lia)) as Hp.
  pose proof (inject_nat_nonneg i) as Hi0.
  pose proof (inject_nat_le i (num - 1) ltac:(lia)) as Hi1.
  set (k := inject_Z (Z.of_nat i)) in *.
  set (d := inject_Z (Z.of_nat (num - 1))) in *.
  assert (Hr : 0 <= k / d <= 1).
  { split.
    - apply Qle_shift_div_l; lra.
    - apply Qle_shift_div_r; lra. }
  assert (E : k * ((stop - start) / d) == (k / d) * (stop - start))
    by (field; lra).
  rewrite E. nra.
Qed.

Lemma linspace_ends (start stop : Q) (num : nat) :
  (2 <= num)%nat ->
  (exists u, In u (linspace start stop num) /\ u == start) /\
  In stop (linspace start stop num).
Proof.
  intro Hn. split.
  - exists (nth 0 (linspace start stop num) 0). split.
    + apply nth_In. rewrite linspace_length. lia.
    + rewrite linspace_nth by lia. cbn. ring.
  - unfold linspace. apply in_map_iff. exists (num - 1)%nat. split.
    + rewrite Nat.eqb_refl.
      assert (E1 : (1 <? num)%nat = true) by (apply Nat.ltb_lt; lia).
      now rewrite E1.
    + apply in_seq. lia.
Qed.

Lemma linspace_full_rank (start stop : Q) (num : nat) :
  (2 <= num)%nat -> start < stop -> 0 < sxx (linspace start stop num).
Proof.
  intros Hn Hlt.
  destruct (linspace_ends start stop num Hn) as ((u & Hu & Eu) & Hs).
  apply (sxx_pos _ u stop Hu Hs). lra.
Qed.

(** ** Linear interpolation *)

Lemma insert_by_time_In (p q : Q * Q) (l : list (Q * Q)) :
  In q (insert_by_time p l) <-> q = p \/ In q l.
Proof.
  induction l as [|r l IH]; cbn [insert_by_time].
  - simpl. intuition congruence.
  - destruct (Qle_bool (fst p) (fst r)); simpl in *; rewrite ?IH;
      intuition congruence.
Qed.

Lemma insert_by_time_length (p : Q * Q) (l : list (Q * Q)) :
  length (insert_by_time p l) = S (length l).
Proof.
  induction l as [|r l IH]; cbn [insert_by_time]; [reflexivity|].
  destruct (Qle_bool (fst p) (fst r)); simpl; congruence.
Qed.

Lemma insert_by_time_sorted (p : Q * Q) (l : list (Q * Q)) :
  StronglySorted by_time l ->
  Forall (fun q => ~ fst p == fst q) l ->
  StronglySorted by_time (insert_by_time p l).
Proof.
  induction 1 as [|r l Hs IH Hr]; intro Hd; cbn [insert_by_time].
  - repeat constructor.
  - inversion Hd as [|? ? Hpr Hd']; subst.
    destruct (Qle_bool (fst p) (fst r)) eqn:E.
    + apply Qle_bool_iff in E.
      assert (Hlt : fst p < fst r).
      { destruct (Qlt_le_dec (fst p) (fst r)) as [H|H]; [exact H|].
        exfalso. apply Hpr. apply Qle_antisym; assumption. }
      constructor; [constructor; assumption|].
      constructor; [exact Hlt|].
      eapply Forall_impl; [|exact Hr].
      intros a Ha. unfold by_time in *. lra.
    + assert (Hlt : fst r < fst p).
      { apply Qnot_le_lt. intro H. apply Qle_bool_iff in H. congruence. }
      constructor; [apply IH; exact Hd'|].
      apply Forall_forall. intros a Ha.
      apply insert_by_time_In in Ha. destruct Ha as [->|Ha].
      * exact Hlt.
      * rewrite Forall_forall in Hr. apply Hr, Ha.
Qed.

Lemma sort_by_time_In (q : Q * Q) (l : list (Q * Q)) :
  In q (sort_by_time l) <-> In q l.
Proof.
  induction l as [|p l IH]; [reflexivity|].
  unfold sort_by_time in *. cbn [fold_right].
  rewrite insert_by_time_In, IH. simpl. intuition congruence.
Qed.

Lemma sort_by_time_length (l : list (Q * Q)) :
  length (sort_by_time l) = length l.
Proof.
  induction l as [|p l IH]; [reflexivity|].
  unfold sort_by_time in *. cbn [fold_right].
  rewrite insert_by_time_length. simpl. congruence.
Qed.

Lemma sort_by_time_sorted (l : list (Q * Q)) :
  ForallOrdPairs (fun p q => ~ fst p == fst q) l ->
  StronglySorted by_time (sort_by_time l).
Proof.
  induction 1 as [|p l Hp _ IH].
  - constructor.
  - unfold sort_by_time in *. cbn [fold_right].
    apply insert_by_time_sorted; [exact IH|].
    apply Forall_forall. intros q Hq.
    apply (sort_by_time_In q l) in Hq.
    rewrite Forall_forall in Hp. apply Hp, Hq.
Qed.

Lemma combine_distinct (x y : list Q) :
  distinct_times x ->
  ForallOrdPairs (fun p q => ~ fst p == fst q) (combine x y).
Proof.
  intro H. revert y. induction H as [|t x Ht _ IH]; intros [|m y];
    cbn [combine]; try constructor.
  - apply Forall_forall. intros q Hq. destruct q as [u v].
    apply in_combine_l in Hq. rewrite Forall_forall in Ht.
    cbn [fst]. apply Ht, Hq.
  - apply IH.
Qed.

(** Positions in a table sorted by time. *)
Lemma sorted_nth_lt (l : list (Q * Q)) (d : Q * Q) (i j : nat) :
  StronglySorted by_time l -> (i < j)%nat -> (j < length l)%nat ->
  fst (nth i l d) < fst (nth j l d).
Proof.
  intro Hs. revert i j. induction Hs as [|p l Hs IH Hp]; intros i j Hij Hj.
  - simpl in Hj. lia.
  - destruct j as [|j]; [lia|]. simpl in Hj.
    destruct i as [|i]; cbn [nth].
    + rewrite Forall_forall in Hp. apply Hp, nth_In. lia.
    + apply IH; lia.
Qed.

Lemma sorted_nth_le (l : list (Q * Q)) (d : Q * Q) (i j : nat) :
  StronglySorted by_time l -> (i <= j)%nat -> (j < length l)%nat ->
  fst (nth i l d) <= fst (nth j l d).
Proof.
  intros Hs Hij Hj. destruct (Nat.eq_dec i j) as [->|Hne]; [lra|].
  apply Qlt_le_weak, sorted_nth_lt; auto; lia.
Qed.

Lemma searchsorted_none (xs : list Q) (v : Q) :
  Forall (fun t => v <= t) xs -> searchsorted xs v = 0%nat.
Proof.
  unfold searchsorted. induction 1 as [|t xs Ht _ IH]; [reflexivity|].
  cbn [filter]. apply Qlt_bool_false_iff in Ht. now rewrite Ht.
Qed.

Lemma searchsorted_nth (l : list (Q * Q)) (d : Q * Q) (v : Q) (i : nat) :
  StronglySorted by_time l -> (i < length l)%nat ->
  (i < searchsorted (map fst l) v)%nat <-> fst (nth i l d) < v.
Proof.
  intro Hs. revert i. induction Hs as [|p l Hs IH Hp]; intros i Hi.
  - simpl in Hi. lia.
  - unfold searchsorted in *. cbn [map filter].
    destruct (Qlt_bool (fst p) v) eqn:E.
    + apply Qlt_bool_iff in E. cbn [length].
      destruct i as [|i]; cbn [nth].
      * split; [intros _; exact E|lia].
      * simpl in Hi. rewrite <- (IH i) by lia. lia.
    + apply Qlt_bool_false_iff in E.
      assert (Hz : length (filter (fun x => Qlt_bool x v) (map fst l)) = 0%nat).
      { apply (searchsorted_none (map fst l) v).
        apply Forall_forall. intros t Ht. apply in_map_iff in Ht.
        destruct Ht as (q & <- & Hq). rewrite Forall_forall in Hp.
        specialize (Hp q Hq). unfold by_time in Hp. lra. }
      rewrite Hz. split; [lia|]. intro Hlt. exfalso.
      assert (fst p <= fst (nth i (p :: l) d)).
      { apply (sorted_nth_le (p :: l) d 0 i); [constructor; assumption|lia|exact Hi]. }
      lra.
Qed.

Lemma in_combine_exists (x y : list Q) (t : Q) :
  length x = length y -> In t x -> exists m, In (t, m) (combine x y).
Proof.
  revert y. induction x as [|a x IH]; intros [|b y] H Hin;
    simpl in *; try discriminate; try tauto.
  destruct Hin as [->|Hin].
  - exists b. left. reflexivity.
  - destruct (IH y ltac:(lia) Hin) as (m & Hm). exists m. right. exact Hm.
Qed.

Lemma nth_map_fst (l : list (Q * Q)) (i : nat) :
  nth i (map fst l) 0 = fst (nth i l (0, 0)).
Proof. exact (map_nth fst l (0, 0) i). Qed.

Lemma nth_map_snd (l : list (Q * Q)) (i : nat) :
  nth i (map snd l) 0 = snd (nth i l (0, 0)).
Proof. exact (map_nth snd l (0, 0) i). Qed.

(** Where [_call_linear] looks: the two neighbours of [x] in the table. *)
Lemma bracket (l : list (Q * Q)) (d : Q * Q) (x : Q) :
  StronglySorted by_time l -> (2 <= length l)%nat ->
  fst (nth 0 l d) <= x -> x <= fst (nth (length l - 1) l d) ->
  let hi := clip (searchsorted (map fst l) x) 1 (length l - 1) in
  (1 <= hi)%nat /\ (hi < length l)%nat /\
  fst (nth (hi - 1) l d) <= x /\ x <= fst (nth hi l d).
Proof.
  intros Hs Hn H0 H1 hi. subst hi. unfold clip.
  set (k := searchsorted (map fst l) x).
  assert (Hk : (k <= length l - 1)%nat).
  { destruct (Nat.le_gt_cases k (length l - 1)) as [H|H]; [exact H|].
    exfalso. fold k in H.
    apply (searchsorted_nth l d x (length l - 1) Hs) in H; [lra|lia]. }
  destruct k as [|k'] eqn:Ek.
  - cbn [Nat.max]. rewrite Nat.min_l by lia.
    split; [lia|]. split; [lia|]. cbn [Nat.sub]. split; [exact H0|].
    destruct (Qlt_le_dec (fst (nth 1 l d)) x) as [H|H]; [|exact H].
    exfalso. apply (searchsorted_nth l d x 1 Hs) in H; [|lia].
    fold k in H. lia.
  - rewrite Nat.max_l by lia. rewrite Nat.min_l by lia.
    split; [lia|]. split; [lia|]. split.
    + apply Qlt_le_weak. apply (searchsorted_nth l d x (S k' - 1) Hs); [lia|].
      fold k. lia.
    + destruct (Qlt_le_dec (fst (nth (S k') l d)) x) as [H|H]; [|exact H].
      exfalso. apply (searchsorted_nth l d x (S k') Hs) in H; [|lia].
      fold k in H. lia.
Qed.

Lemma call_linear_spec (times mags : list Q) (x tmin tmax : Q) :
  length times = length mags -> (2 <= length times)%nat ->
  distinct_times times ->
  list_min times tmin -> list_max times tmax -> tmin <= x <= tmax ->
  exists v,
    call_linear (sort_by_time (combine times mags)) x = Returns v /\
    linear_interpolation times mags x v.
Proof.
  intros Hlen Hn Hd [Hmin_in Hmin] [Hmax_in Hmax] [Hx0 Hx1].
  set (l := sort_by_time (combine times mags)).
  assert (Hs : StronglySorted by_time l)
    by (apply sort_by_time_sorted, combine_distinct, Hd).
  assert (Hl : length l = length times).
  { unfold l. rewrite sort_by_time_length, length_combine, <- Hlen.
    apply Nat.min_id. }
  set (d := (0, 0) : Q * Q).
  assert (Hin_l : forall t, In t times -> exists j, (j < length l)%nat /\
                                                    fst (nth j l d) = t).
  { intros t Ht. destruct (in_combine_exists times mags t Hlen Ht) as (m & Hm).
    apply (sort_by_time_In (t, m)) in Hm. fold l in Hm.
    destruct (In_nth l (t, m) d Hm) as (j & Hj & Ej).
    exists j. split; [exact Hj|]. now rewrite Ej. }
  assert (H0 : fst (nth 0 l d) <= x).
  { destruct (Hin_l tmin Hmin_in) as (j & Hj & Ej).
    pose proof (sorted_nth_le l d 0 j Hs ltac:(lia) Hj). rewrite Ej in H. lra. }
  assert (H1 : x <= fst (nth (length l - 1) l d)).
  { destruct (Hin_l tmax Hmax_in) as (j & Hj & Ej).
    pose proof (sorted_nth_le l d j (length l - 1) Hs ltac:(lia) ltac:(lia)).
    rewrite Ej in H. lra. }
  destruct (bracket l d x Hs ltac:(lia) H0 H1) as (Hh1 & Hh2 & Hlo & Hhi).
  unfold call_linear. fold l. rewrite length_map.
  set (hi := clip (searchsorted (map fst l) x) 1 (length l - 1)) in *.
  rewrite !nth_map_fst, !nth_map_snd. fold d.
  pose proof (sorted_nth_lt l d (hi - 1) hi Hs ltac:(lia) Hh2) as Hlt.
  destruct (Qeq_bool (fst (nth hi l d) - fst (nth (hi - 1) l d)) 0) eqn:E.
  { apply Qeq_bool_eq in E. exfalso. lra. }
  eexists. split; [reflexivity|].
  exists (fst (nth (hi - 1) l d)), (snd (nth (hi - 1) l d)),
         (fst (nth hi l d)), (snd (nth hi l d)).
  rewrite <- !surjective_pairing.
  split; [apply (sort_by_time_In _ (combine times mags)); fold l; apply nth_In; lia|].
  split; [apply (sort_by_time_In _ (combine times mags)); fold l; apply nth_In; lia|].
  split; [exact Hlt|]. split; [split; assumption|]. split.
  - apply Forall_forall. intros q Hq.
    apply (sort_by_time_In q) in Hq. fold l in Hq.
    destruct (In_nth l q d Hq) as (j & Hj & <-).
    destruct (Nat.le_gt_cases j (hi - 1)) as [Hc|Hc].
    + left. apply sorted_nth_le; auto; lia.
    + right. apply sorted_nth_le; auto; lia.
  - field. lra.
Qed.

(** ** analyze_color_evolution *)

Lemma map_outcome_spec {A B : Type} (f : A -> outcome B) (P : A -> B -> Prop)
  (l : list A) :
  Forall (fun a => exists b, f a = Returns b /\ P a b) l ->
  exists bs, map_outcome f l = Returns bs /\ Forall2 P l bs.
Proof.
  induction 1 as [|a l (b & Hb & Pb) _ (bs & Hbs & Pbs)].
  - exists []. split; [reflexivity|constructor].
  - exists (b :: bs). cbn [map_outcome]. rewrite Hb. cbn [bind].
    rewrite Hbs. cbn [bind]. split; [reflexivity|constructor; assumption].
Qed.

Lemma Forall2_length_eq {A B : Type} (P : A -> B -> Prop)
  (l : list A) (l' : list B) : Forall2 P l l' -> length l = length l'.
Proof. induction 1; simpl; congruence. Qed.

Lemma array_sub_length (a b : list Q) :
  length a = length b -> length (array_sub a b) = length a.
Proof.
  intro H. unfold array_sub. rewrite length_map, length_combine, <- H.
  apply Nat.min_id.
Qed.

Lemma interp1d_ok (x y : list Q) :
  length x = length y -> x <> [] ->
  interp1d x y = Returns (sort_by_time (combine x y)).
Proof.
  intros H Hne. unfold interp1d. rewrite H, Nat.eqb_refl. cbn [negb].
  rewrite <- H. destruct x; [congruence|reflexivity].
Qed.

Lemma window_ends_exist (lc : LightCurve) :
  lc_times_g lc <> [] -> lc_times_r lc <> [] ->
  exists g0 r0 g1 r1, window_ends lc g0 r0 g1 r1.
Proof.
  intros Hg Hr.
  destruct (np_min_spec _ Hg) as (g0 & ? & ?).
  destruct (np_min_spec _ Hr) as (r0 & ? & ?).
  destruct (np_max_spec _ Hg) as (g1 & ? & ?).
  destruct (np_max_spec _ Hr) as (r1 & ? & ?).
  exists g0, r0, g1, r1. constructor; assumption.
Qed.

Lemma window_ends_unique (lc : LightCurve) (g0 r0 g1 r1 start stop : Q) :
  window_ends lc g0 r0 g1 r1 -> time_window lc start stop ->
  start == py_max g0 r0 /\ stop == py_min g1 r1.
Proof.
  intros W (a & b & c & d & Ha & Hb & Hc & Hd & Hs & He).
  rewrite py_max_Qmax, py_min_Qmin, Hs, He.
  rewrite (list_min_unique _ _ _ Ha (we_g0_min _ _ _ _ _ W)).
  rewrite (list_min_unique _ _ _ Hb (we_r0_min _ _ _ _ _ W)).
  rewrite (list_max_unique _ _ _ Hc (we_g1_max _ _ _ _ _ W)).
  rewrite (list_max_unique _ _ _ Hd (we_r1_max _ _ _ _ _ W)).
  split; reflexivity.
Qed.

Lemma nonempty_of_length (l : list Q) (n : nat) :
  (S n <= length l)%nat -> l <> [].
Proof. destruct l; simpl; [lia|congruence]. Qed.

Lemma interpolate_bands_ok (lc : LightCurve) (g0 r0 g1 r1 : Q) (grid : list Q) :
  well_formed lc ->
  (3 <= length (lc_g lc))%nat -> (3 <= length (lc_r lc))%nat ->
  distinct_times (lc_times_g lc) -> distinct_times (lc_times_r lc) ->
  window_ends lc g0 r0 g1 r1 ->
  Forall (fun x => py_max g0 r0 <= x <= py_min g1 r1) grid ->
  exists g_interp r_interp,
    interpolate_bands lc grid = Returns (g_interp, r_interp) /\
    Forall2 (linear_interpolation (lc_times_g lc) (lc_g lc)) grid g_interp /\
    Forall2 (linear_interpolation (lc_times_r lc) (lc_r lc)) grid r_interp.
Proof.
  intros [Wg Wr] Hg Hr Dg Dr W Hgrid.
  destruct (py_max_spec g0 r0) as (_ & Hs1 & Hs2).
  destruct (py_min_spec g1 r1) as (_ & He1 & He2).
  unfold interpolate_bands.
  rewrite (interp1d_ok _ _ Wg) by (apply (nonempty_of_length _ 2); lia).
  rewrite (interp1d_ok _ _ Wr) by (apply (nonempty_of_length _ 2); lia).
  cbn [bind].
  destruct (map_outcome_spec
              (call_linear (sort_by_time (combine (lc_times_g lc) (lc_g lc))))
              (linear_interpolation (lc_times_g lc) (lc_g lc)) grid)
    as (gi & Egi & Fgi).
  { eapply Forall_impl; [|exact Hgrid]. intros x Hx. cbv beta in Hx.
    apply (call_linear_spec _ _ x g0 g1); auto; try lia.
    - exact (we_g0_min _ _ _ _ _ W).
    - exact (we_g1_max _ _ _ _ _ W).
    - lra. }
  destruct (map_outcome_spec
              (call_linear (sort_by_time (combine (lc_times_r lc) (lc_r lc))))
              (linear_interpolation (lc_times_r lc) (lc_r lc)) grid)
    as (ri & Eri & Fri).
  { eapply Forall_impl; [|exact Hgrid]. intros x Hx. cbv beta in Hx.
    apply (call_linear_spec _ _ x r0 r1); auto; try lia.
    - exact (we_r0_min _ _ _ _ _ W).
    - exact (we_r1_max _ _ _ _ _ W).
    - lra. }
  exists gi, ri. rewrite Egi. cbn [bind]. rewrite Eri. cbn [bind].
  repeat split; assumption.
Qed.

Lemma analyze_color_evolution_run (format_2f : Q -> string)
  (lc : LightCurve) (g0 r0 g1 r1 : Q) :
  well_formed lc ->
  (3 <= length (lc_g lc))%nat -> (3 <= length (lc_r lc))%nat ->
  distinct_times (lc_times_g lc) -> distinct_times (lc_times_r lc) ->
  window_ends lc g0 r0 g1 r1 ->
  100 <= py_min g1 r1 - py_max g0 r0 ->
  let grid := linspace (py_max g0 r0) (py_min g1 r1)
                       (Nat.min (length (lc_g lc)) (length (lc_r lc))) in
  exists g_interp r_interp,
    Forall2 (linear_interpolation (lc_times_g lc) (lc_g lc)) grid g_interp /\
    Forall2 (linear_interpolation (lc_times_r lc) (lc_r lc)) grid r_interp /\
    analyze_color_evolution format_2f (Some lc) =
    Returns (Some (color_result format_2f grid
                                (array_sub g_interp r_interp)
                                (py_min g1 r1 - py_max g0 r0))).
Proof.
  intros Wf Hg Hr Dg Dr W Hspan grid.
  assert (Hn : (2 <= Nat.min (length (lc_g lc)) (length (lc_r lc)))%nat) by lia.
  destruct (interpolate_bands_ok lc g0 r0 g1 r1 grid Wf Hg Hr Dg Dr W)
    as (gi & ri & Ei & Fg & Fr).
  { apply linspace_bounds; [exact Hn|lra]. }
  exists gi, ri. split; [exact Fg|]. split; [exact Fr|].
  unfold analyze_color_evolution.
  assert (E3 : ((length (lc_g lc) <? 3)%nat || (length (lc_r lc) <? 3)%nat)
               = false).
  { apply orb_false_iff. split; apply Nat.ltb_ge; lia. }
  rewrite E3.
  rewrite (we_g0 _ _ _ _ _ W), (we_r0 _ _ _ _ _ W),
          (we_g1 _ _ _ _ _ W), (we_r1 _ _ _ _ _ W).
  cbn [bind].
  assert (E100 : Qlt_bool (py_min g1 r1 - py_max g0 r0) 100 = false)
    by (apply Qlt_bool_false_iff; exact Hspan).
  rewrite E100. fold grid. rewrite Ei.
  assert (Hlen : length grid = length (array_sub gi ri)).
  { rewrite array_sub_length.
    - exact (Forall2_length_eq _ _ _ Fg).
    - rewrite <- (Forall2_length_eq _ _ _ Fg). exact (Forall2_length_eq _ _ _ Fr). }
  rewrite (polyfit1_full_rank grid (array_sub gi ri) Hlen)
    by (apply linspace_full_rank; [exact Hn|lra]).
  reflexivity.
Qed.

(** C2: with one timestamp per magnitude, distinct times within a band, at
    least 3 samples in each band and an intersection [start, stop] of the
    two time spans of at least 100 days, the analyser returns a result
    obtained from a grid of min(count_g, count_r) evenly spaced times from
    start to stop, the linear interpolation of each band on that grid, the
    pointwise colour g - r, and the least-squares line of colour against
    grid time: color_change_1yr is 365 times its slope and is_significant
    holds exactly when |color_change_1yr| > 0.1. *)
Theorem analyze_color_evolution_grid_fit
  (format_2f : Q -> string) (lc : LightCurve) (start stop : Q) :
  well_formed lc ->
  (3 <= length (lc_g lc))%nat -> (3 <= length (lc_r lc))%nat ->
  distinct_times (lc_times_g lc) -> distinct_times (lc_times_r lc) ->
  time_window lc start stop -> 100 <= stop - start ->
  exists res grid g_interp r_interp,
    analyze_color_evolution format_2f (Some lc) = Returns (Some res) /\
    length grid = Nat.min (length (lc_g lc)) (length (lc_r lc)) /\
    (forall i, (i < length grid)%nat ->
       nth i grid 0 ==
       start + inject_Z (Z.of_nat i)
               * ((stop - start) / inject_Z (Z.of_nat (length grid - 1)))) /\
    Forall2 (linear_interpolation (lc_times_g lc) (lc_g lc)) grid g_interp /\
    Forall2 (linear_interpolation (lc_times_r lc) (lc_r lc)) grid r_interp /\
    let color := map (fun p => fst p - snd p) (combine g_interp r_interp) in
    (exists b, least_squares_line grid color (ce_color_slope_per_day res) b) /\
    (forall a b, least_squares_line grid color a b ->
                 ce_color_change_1yr res == a * 365) /\
    ce_color_change_1yr res = ce_color_slope_per_day res * 365 /\
    (ce_is_significant_evolution res = true <->
     0.1 < Qabs (ce_color_change_1yr res)).
Proof.
  intros Wf Hg Hr Dg Dr Hw Hspan.
  destruct (window_ends_exist lc) as (g0 & r0 & g1 & r1 & W);
    try (apply (nonempty_of_length _ 2); destruct Wf; lia).
  destruct (window_ends_unique lc g0 r0 g1 r1 start stop W Hw) as [Es Ee].
  assert (Hspan' : 100 <= py_min g1 r1 - py_max g0 r0)
    by (rewrite <- Es, <- Ee; exact Hspan).
  destruct (analyze_color_evolution_run format_2f lc g0 r0 g1 r1
              Wf Hg Hr Dg Dr W Hspan') as (gi & ri & Fg & Fr & E).
  set (n := Nat.min (length (lc_g lc)) (length (lc_r lc))) in *.
  set (grid := linspace (py_max g0 r0) (py_min g1 r1) n) in *.
  assert (Hn : (2 <= n)%nat) by (unfold n; lia).
  assert (Hlen : length grid = length (array_sub gi ri)).
  { rewrite array_sub_length.
    - exact (Forall2_length_eq _ _ _ Fg).
    - rewrite <- (Forall2_length_eq _ _ _ Fg). exact (Forall2_length_eq _ _ _ Fr). }
  assert (HD : 0 < sxx grid) by (apply linspace_full_rank; [exact Hn|lra]).
  eexists. exists grid, gi, ri. split; [exact E|].
  split; [apply linspace_length|].
  split.
  { intros i Hi. unfold grid in *. rewrite linspace_length in *.
    rewrite linspace_nth by assumption. rewrite Es, Ee. reflexivity. }
  split; [exact Fg|]. split; [exact Fr|].
  cbn [color_result ce_color_slope_per_day ce_color_change_1yr
       ce_is_significant_evolution].
  fold (array_sub gi ri).
  split; [|split; [|split]].
  - exists (fit_intercept grid (array_sub gi ri)).
    apply fit_is_least_squares; assumption.
  - intros a b Hls.
    rewrite (least_squares_slope_unique _ _ a b Hlen HD Hls). reflexivity.
  - reflexivity.
  - apply Qlt_bool_iff.
Qed.

(** ** Status of the colour trend *)

Lemma color_status_stable (format_2f : Q -> string) (slope change : Q) :
  Qabs slope < 0.0001 ->
  color_status_of format_2f slope change = "STABLE"%string.
Proof.
  intro H. unfold color_status_of. apply Qlt_bool_iff in H. now rewrite H.
Qed.

Lemma color_status_reddening (format_2f : Q -> string) (slope change : Q) :
  0.0001 < slope ->
  color_status_of format_2f slope change
  = ("REDDENING (Δ(g-r) = +" ++ format_2f (Qabs change) ++ " mag/yr)")%string.
Proof.
  intro H. unfold color_status_of.
  assert (E : Qlt_bool (Qabs slope) 0.0001 = false).
  { apply Qlt_bool_false_iff. rewrite Qabs_pos; lra. }
  rewrite E. apply Qlt_bool_iff in H. now rewrite H.
Qed.

Lemma color_status_blueing (format_2f : Q -> string) (slope change : Q) :
  slope <= - 0.0001 ->
  color_status_of format_2f slope change
  = ("BLUEING (Δ(g-r) = " ++ format_2f change ++ " mag/yr)")%string.
Proof.
  intro H. unfold color_status_of.
  assert (E : Qlt_bool (Qabs slope) 0.0001 = false).
  { apply Qlt_bool_false_iff. rewrite Qabs_neg; lra. }
  rewrite E.
  assert (E' : Qlt_bool 0.0001 slope = false)
    by (apply Qlt_bool_false_iff; lra).
  now rewrite E'.
Qed.


Lemma np_min_returns (l : list Q) (m : Q) :
  np_min l = Returns m -> list_min l m.
Proof.
  intro H. destruct l as [|x xs]; [discriminate|].
  destruct (np_min_spec (x :: xs) ltac:(congruence)) as (m' & E & Hm).
  congruence.
Qed.

Lemma np_max_returns (l : list Q) (m : Q) :
  np_max l = Returns m -> list_max l m.
Proof.
  intro H. destruct l as [|x xs]; [discriminate|].
  destruct (np_max_spec (x :: xs) ltac:(congruence)) as (m' & E & Hm).
  congruence.
Qed.

Lemma interpolate_bands_raises (lc : LightCurve) (grid : list Q) (e : exn) :
  interp1d (lc_times_g lc) (lc_g lc) = Raises e \/
  interp1d (lc_times_r lc) (lc_r lc) = Raises e ->
  exists e', interpolate_bands lc grid = Raises e'.
Proof.
  unfold interpolate_bands. intros [H|H].
  - rewrite H. exists e. reflexivity.
  - destruct (interp1d (lc_times_g lc) (lc_g lc)) as [t|e'|] eqn:E.
    + cbn [bind]. rewrite H. exists e. reflexivity.
    + exists e'. reflexivity.
    + unfold interp1d in E.
      destruct (negb (length (lc_times_g lc) =? length (lc_g lc))%nat);
        [discriminate|].
      destruct (length (lc_times_g lc) =? 0)%nat; discriminate.
Qed.

Lemma interpolate_bands_returns (lc : LightCurve) (grid g_interp r_interp : list Q) :
  interpolate_bands lc grid = Returns (g_interp, r_interp) ->
  exists f_g f_r,
    interp1d (lc_times_g lc) (lc_g lc) = Returns f_g /\
    interp1d (lc_times_r lc) (lc_r lc) = Returns f_r.
Proof.
  unfold interpolate_bands.
  destruct (interp1d (lc_times_g lc) (lc_g lc)) as [fg| |]; try discriminate.
  destruct (interp1d (lc_times_r lc) (lc_r lc)) as [fr| |]; try discriminate.
  intros _. exists fg, fr. split; reflexivity.
Qed.

Lemma time_window_of_ends (lc : LightCurve) (g0 r0 g1 r1 : Q) :
  np_min (lc_times_g lc) = Returns g0 ->
  np_min (lc_times_r lc) = Returns r0 ->
  np_max (lc_times_g lc) = Returns g1 ->
  np_max (lc_times_r lc) = Returns r1 ->
  window_ends lc g0 r0 g1 r1 /\
  time_window lc (py_max g0 r0) (py_min g1 r1).
Proof.
  intros H1 H2 H3 H4.
  pose proof (np_min_returns _ _ H1). pose proof (np_min_returns _ _ H2).
  pose proof (np_max_returns _ _ H3). pose proof (np_max_returns _ _ H4).
  split; [constructor; assumption|].
  exists g0, r0, g1, r1. repeat split; try tauto.
  - apply H.
  - apply H.
  - apply H0.
  - apply H0.
  - apply H5.
  - apply H5.
  - apply H6.
  - apply H6.
  - apply py_max_Qmax.
  - apply py_min_Qmin.
Qed.

(** The absent results of the colour analyser: it returns no result,
    without raising, when either band has fewer than 3 samples, when the
    intersection of the time spans is shorter than 100 days whatever the
    sample counts, and when the interpolation step raises; a result is
    returned only when both bands have 3 samples, the intersection spans
    100 days and the interpolants were built. *)
Theorem analyze_color_evolution_absent (format_2f : Q -> string) :
  analyze_color_evolution format_2f None = Returns None /\
  (forall lc,
      (length (lc_g lc) < 3)%nat \/ (length (lc_r lc) < 3)%nat ->
      analyze_color_evolution format_2f (Some lc) = Returns None) /\
  (forall lc start stop,
      time_window lc start stop -> stop - start < 100 ->
      analyze_color_evolution format_2f (Some lc) = Returns None) /\
  (forall lc e,
      lc_times_g lc <> [] -> lc_times_r lc <> [] ->
      interp1d (lc_times_g lc) (lc_g lc) = Raises e \/
      interp1d (lc_times_r lc) (lc_r lc) = Raises e ->
      analyze_color_evolution format_2f (Some lc) = Returns None) /\
  analyze_color_evolution format_2f (Some lc_ragged) = Returns None /\
  (forall lc res,
      analyze_color_evolution format_2f (Some lc) = Returns (Some res) ->
      (3 <= length (lc_g lc))%nat /\ (3 <= length (lc_r lc))%nat /\
      (exists start stop,
          time_window lc start stop /\ 100 <= stop - start /\
          ce_baseline_days res = stop - start) /\
      (exists f_g f_r,
          interp1d (lc_times_g lc) (lc_g lc) = Returns f_g /\
          interp1d (lc_times_r lc) (lc_r lc) = Returns f_r)).
Proof.
  split; [reflexivity|]. split; [|split; [|split; [|split]]].
  - intros lc H. unfold analyze_color_evolution.
    assert (E : ((length (lc_g lc) <? 3)%nat || (length (lc_r lc) <? 3)%nat)
                = true).
    { apply orb_true_iff. destruct H; [left|right]; apply Nat.ltb_lt; lia. }
    now rewrite E.
  - intros lc start stop Hw Hshort. unfold analyze_color_evolution.
    destruct ((length (lc_g lc) <? 3)%nat || (length (lc_r lc) <? 3)%nat);
      [reflexivity|].
    destruct (window_ends_exist lc) as (g0 & r0 & g1 & r1 & W).
    { destruct Hw as (a & _ & _ & _ & [Ha _] & _). intro E.
      rewrite E in Ha. exact Ha. }
    { destruct Hw as (_ & b & _ & _ & _ & [Hb _] & _). intro E.
      rewrite E in Hb. exact Hb. }
    destruct (window_ends_unique lc g0 r0 g1 r1 start stop W Hw) as [Es Ee].
    rewrite (we_g0 _ _ _ _ _ W), (we_r0 _ _ _ _ _ W),
            (we_g1 _ _ _ _ _ W), (we_r1 _ _ _ _ _ W).
    cbn [bind].
    assert (E : Qlt_bool (py_min g1 r1 - py_max g0 r0) 100 = true)
      by (apply Qlt_bool_iff; rewrite <- Es, <- Ee; exact Hshort).
    now rewrite E.
  - intros lc e Hg Hr Hraise. unfold analyze_color_evolution.
    destruct ((length (lc_g lc) <? 3)%nat || (length (lc_r lc) <? 3)%nat);
      [reflexivity|].
    destruct (window_ends_exist lc Hg Hr) as (g0 & r0 & g1 & r1 & W).
    rewrite (we_g0 _ _ _ _ _ W), (we_r0 _ _ _ _ _ W),
            (we_g1 _ _ _ _ _ W), (we_r1 _ _ _ _ _ W).
    cbn [bind].
    destruct (Qlt_bool (py_min g1 r1 - py_max g0 r0) 100); [reflexivity|].
    destruct (interpolate_bands_raises lc
                (linspace (py_max g0 r0) (py_min g1 r1)
                          (Nat.min (length (lc_g lc)) (length (lc_r lc))))
                e Hraise) as (e' & E).
    now rewrite E.
  - reflexivity.
  - intros lc res H. unfold analyze_color_evolution in H.
    destruct ((length (lc_g lc) <? 3)%nat || (length (lc_r lc) <? 3)%nat)
      eqn:E3; [discriminate|].
    apply orb_false_iff in E3. destruct E3 as [Eg Er].
    apply Nat.ltb_ge in Eg, Er.
    destruct (np_min (lc_times_g lc)) as [g0| |] eqn:E1; try discriminate.
    destruct (np_min (lc_times_r lc)) as [r0| |] eqn:E2; try discriminate.
    destruct (np_max (lc_times_g lc)) as [g1| |] eqn:E4; try discriminate.
    destruct (np_max (lc_times_r lc)) as [r1| |] eqn:E5; try discriminate.
    cbn [bind] in H.
    destruct (Qlt_bool (py_min g1 r1 - py_max g0 r0) 100) eqn:E100;
      [discriminate|].
    apply Qlt_bool_false_iff in E100.
    destruct (interpolate_bands lc _) as [[gi ri]| |] eqn:Ei;
      try discriminate.
    destruct (polyfit1 _ _) as [[a b]| |]; try discriminate.
    cbn [bind] in H. injection H as <-.
    destruct (time_window_of_ends lc g0 r0 g1 r1 E1 E2 E4 E5) as [_ Hw].
    split; [exact Eg|]. split; [exact Er|]. split.
    + exists (py_max g0 r0), (py_min g1 r1). repeat split; auto.
    + exact (interpolate_bands_returns _ _ _ _ Ei).
Qed.

(** ** Acquisition *)




(** C10: the synthetic light curve depends on the object name only: with
    the same name, any two positions (ra, dec) and any two states of the
    random generator give the same output and leave the generator in the
    same state. *)
Theorem synthetic_lc_ignores_position (rnd : NumpyRandom)
  (py_hash : string -> Z) (np_sin : Q -> Q) (np_pi : Q)
  (object_name : string) (ra dec ra' dec' : Q) (s s' : rng_state rnd) :
  _generate_synthetic_lc rnd py_hash np_sin np_pi object_name ra dec s
  = _generate_synthetic_lc rnd py_hash np_sin np_pi object_name ra' dec' s'
  /\ exists out,
       forall ra dec s,
         _generate_synthetic_lc rnd py_hash np_sin np_pi object_name ra dec s
         = out.
Proof.
  split; [reflexivity|].
  exists (_generate_synthetic_lc rnd py_hash np_sin np_pi object_name 0 0
                                 (random_seed rnd 0)).
  intros. reflexivity.
Qed.


(** The toy generator does produce a light curve. *)
Lemma synthetic_lc_toy_run :
  exists lc s,
    _generate_synthetic_lc toy_random toy_hash toy_sin toy_pi
                           "V1647 Ori" 83.8 (-5.4) 1%Z = (Returns lc, s) /\
    length (lc_r lc) = length (lc_times_r lc) /\
    (30 <= length (lc_r lc))%nat.
Proof.
  eexists. eexists. split; [vm_compute; reflexivity|].
  split; [reflexivity|]. vm_compute. repeat constructor.
Qed.

(** ** analyze_source *)

Lemma analyze_lc_present (np_sqrt : Q -> Q) (format_2f : Q -> string)
  (source_dict : CatalogRecord) (lc : LightCurve)
  (fading : option FadingResult) (color_evol : option ColorEvolutionResult) :
  analyze_fading (Some lc) (sd_Objname source_dict) = Returns fading ->
  analyze_color_evolution format_2f (Some lc) = Returns color_evol ->
  analyze_lc np_sqrt format_2f source_dict (Some lc)
  = Returns (Some (assemble source_dict
                            (analyze_brightness np_sqrt (Some (raw lc)))
                            fading color_evol)).
Proof.
  intros Hf Hc. unfold analyze_lc. rewrite Hf. cbn [bind]. rewrite Hc.
  reflexivity.
Qed.

Lemma analyze_lc_not_absent (np_sqrt : Q -> Q) (format_2f : Q -> string)
  (source_dict : CatalogRecord) (lc : LightCurve) :
  analyze_lc np_sqrt format_2f source_dict (Some lc) <> Returns None.
Proof.
  unfold analyze_lc.
  destruct (analyze_fading (Some lc) (sd_Objname source_dict)); cbn [bind];
    try discriminate.
  destruct (analyze_color_evolution format_2f (Some lc)); cbn [bind];
    discriminate.
Qed.

(** C7: the orchestrator returns no record exactly when the query returns
    no light curve.  With a light curve [lc] and the three analysers
    returning, it returns one record of the fixed type [SourceAnalysis];
    the brightness fields come from [analyze_brightness], and each of the
    fading and colour groups holds its analyser's values when that analyser
    gave a result and otherwise not-a-number for the numbers, UNKNOWN for
    the status and false for the flag, whatever the other analysers
    gave. *)
Theorem analyze_source_sentinels (np_sqrt : Q -> Q) (format_2f : Q -> string)
  (rnd : NumpyRandom) (py_hash : string -> Z) (np_sin : Q -> Q) (np_pi : Q)
  (HAS_REQUESTS : bool) (self : ZTFAnalyzer) (net : http_reply)
  (s : rng_state rnd) (source_dict : CatalogRecord) :
  let lc_data :=
    fst (fst (query_ztf_lightcurve rnd py_hash np_sin np_pi HAS_REQUESTS
                self net s (sd_RAdeg source_dict) (sd_DEdeg source_dict)
                (sd_Objname source_dict))) in
  let result :=
    fst (fst (analyze_source np_sqrt format_2f rnd py_hash np_sin np_pi
                HAS_REQUESTS self net s source_dict)) in
  (result = Returns None <-> lc_data = Returns None) /\
  (forall lc fading color_evol,
      lc_data = Returns (Some lc) ->
      analyze_fading (Some lc) (sd_Objname source_dict) = Returns fading ->
      analyze_color_evolution format_2f (Some lc) = Returns color_evol ->
      exists brightness record,
        analyze_brightness np_sqrt (Some (raw lc)) = Some brightness /\
        result = Returns (Some record) /\
        sa_Objname record = sd_Objname source_dict /\
        sa_RAdeg record = sd_RAdeg source_dict /\
        sa_DEdeg record = sd_DEdeg source_dict /\
        sa_r_mean record = br_r_mean brightness /\
        sa_r_priority record = br_priority brightness /\
        match fading with
        | Some f =>
            sa_fading_mag_per_year record = Num (fr_mag_change_1yr f) /\
            sa_is_fading record = fr_is_fading f /\
            sa_fading_status record = fr_status f
        | None =>
            sa_fading_mag_per_year record = NaN /\
            sa_is_fading record = false /\
            sa_fading_status record = "UNKNOWN"%string
        end /\
        match color_evol with
        | Some c =>
            sa_color_change_1yr record = Num (ce_color_change_1yr c) /\
            sa_is_reddening_bluing record = ce_is_significant_evolution c /\
            sa_color_status record = ce_status c /\
            sa_baseline_days record = Num (ce_baseline_days c)
        | None =>
            sa_color_change_1yr record = NaN /\
            sa_is_reddening_bluing record = false /\
            sa_color_status record = "UNKNOWN"%string /\
            sa_baseline_days record = NaN
        end).
Proof.
  intros lc_data result. subst lc_data result. unfold analyze_source.
  destruct (query_ztf_lightcurve rnd py_hash np_sin np_pi HAS_REQUESTS
              self net s (sd_RAdeg source_dict) (sd_DEdeg source_dict)
              (sd_Objname source_dict)) as [[lc_out self'] s'].
  cbn [fst]. split.
  - destruct lc_out as [[lc|]|e|]; cbn [bind].
    + split; [intro H|discriminate].
      exfalso. exact (analyze_lc_not_absent _ _ _ _ H).
    + split; reflexivity.
    + split; discriminate.
    + split; discriminate.
  - intros lc fading color_evol -> Hf Hc. cbn [bind].
    rewrite (analyze_lc_present _ _ _ _ _ _ Hf Hc).
    destruct (analyze_brightness_present np_sqrt (raw lc))
      as (b & Eb).
    exists b. eexists. split; [exact Eb|]. split; [reflexivity|].
    rewrite Eb. cbn.
    repeat split; destruct fading, color_evol; repeat split.
Qed.

(** ** The theorems at concrete inputs *)

Ltac qcompute :=
  first [ vm_compute; reflexivity
        | vm_compute; discriminate
        | let H := fresh in intro H; vm_compute in H; discriminate ].

(** An r band of mean exactly 15.5 is MEDIUM. *)
Lemma analyze_brightness_priority_tiers_witness :
  exists res,
    analyze_brightness (fun x => x) (Some (raw lc_boundary_mean)) = Some res /\
    br_priority res = "MEDIUM"%string.
Proof.
  destruct (analyze_brightness_priority_tiers (fun x => x) lc_boundary_mean)
    as (res & E & _ & _ & _ & _ & _ & Hm & _).
  - discriminate.
  - exists res. split; [exact E|]. apply Hm. qcompute.
Defined.

(** Five samples at 100-day steps rising by 0.1 mag: 0.365 mag/yr. *)
Lemma analyze_fading_least_squares_witness :
  exists res,
    analyze_fading (Some lc_rise_a) EmptyString = Returns (Some res) /\
    fr_mag_change_1yr res == 0.365 /\ fr_is_fading res = true.
Proof.
  destruct analyze_fading_least_squares as (_ & _ & _ & H).
  apply (H lc_rise_a EmptyString 14).
  - reflexivity.
  - cbn. repeat constructor; qcompute.
  - exists 0, 100. cbn. split; [auto|]. split; [auto|]. qcompute.
Defined.

(** A slow strict rise has a positive slope. *)
Lemma analyze_fading_status_dead_zone_witness :
  exists res,
    analyze_fading (Some lc_slow_rise) EmptyString = Returns (Some res) /\
    0 < fr_slope_mag_per_day res /\ 0 < fr_mag_change_1yr res.
Proof.
  destruct analyze_fading_status_dead_zone as (_ & H & _).
  apply (H lc_slow_rise EmptyString).
  - cbn. repeat constructor.
  - reflexivity.
  - exact lc_slow_rise_rising.
Defined.

(** Two constant bands observed over the same 400 days. *)
Lemma analyze_color_evolution_grid_fit_witness :
  exists res,
    analyze_color_evolution (fun _ => EmptyString) (Some lc_constant_color)
    = Returns (Some res) /\
    ce_color_change_1yr res = ce_color_slope_per_day res * 365.
Proof.
  destruct (analyze_color_evolution_grid_fit (fun _ => EmptyString)
              lc_constant_color 0 400)
    as (res & grid & gi & ri & E & _ & _ & _ & _ & _ & _ & Hc & _).
  - split; reflexivity.
  - cbn. repeat constructor.
  - cbn. repeat constructor.
  - cbn. repeat constructor; qcompute.
  - cbn. repeat constructor; qcompute.
  - exists 0, 0, 400, 400. cbn.
    repeat split; auto 10; try (repeat constructor; qcompute); qcompute.
  - qcompute.
  - exists res. split; [exact E|exact Hc].
Defined.

(** The two bands share only the 50 days from 250 to 300. *)
Lemma analyze_color_evolution_absent_witness :
  analyze_color_evolution (fun _ => EmptyString) (Some lc_short_overlap)
  = Returns None.
Proof.
  destruct (analyze_color_evolution_absent (fun _ => EmptyString))
    as (_ & _ & H & _).
  apply (H lc_short_overlap 250 300).
  - exists 0, 250, 300, 600. cbn.
    repeat split; auto 10; try (repeat constructor; qcompute); qcompute.
  - qcompute.
Defined.

(** Three detections per band: no fading result, a colour result. *)
Lemma analyze_source_sentinels_witness :
  exists record,
    fst (fst (analyze_source (fun x => x) (fun _ => EmptyString) toy_random
                toy_hash toy_sin toy_pi true toy_analyzer sample_reply 1%Z
                sample_source))
    = Returns (Some record) /\
    sa_fading_mag_per_year record = NaN /\
    sa_is_fading record = false /\
    sa_fading_status record = "UNKNOWN"%string /\
    sa_color_status record = "STABLE"%string /\
    sa_r_priority record = "HIGH"%string.
Proof.
  destruct (analyze_source_sentinels (fun x => x) (fun _ => EmptyString)
              toy_random toy_hash toy_sin toy_pi true toy_analyzer
              sample_reply 1%Z sample_source) as [_ H].
  edestruct H as (b & record & Eb & Er & _ & _ & _ & _ & Hp & Hf & Hc).
  - vm_compute. reflexivity.
  - vm_compute. reflexivity.
  - vm_compute. reflexivity.
  - exists record. split; [exact Er|].
    cbv beta iota in Hf, Hc.
    destruct Hf as (Hf1 & Hf2 & Hf3). destruct Hc as (_ & _ & Hc3 & _).
    split; [exact Hf1|]. split; [exact Hf2|]. split; [exact Hf3|].
    split; [rewrite Hc3; reflexivity|].
    rewrite Hp. injection Eb as <-. reflexivity.
Defined.

(** ** The scenarios of the documentation *)

Example scenario_fading_trend :
  exists res,
    analyze_fading (Some lc_rise_a) EmptyString = Returns (Some res) /\
    fr_slope_mag_per_day res == 0.001 /\
    fr_is_fading res = true /\
    String.prefix "FADING" (fr_status res) = true.
Proof.
  eexists. split; [reflexivity|]. repeat split; try qcompute.
Qed.

Example scenario_constant_color (format_2f : Q -> string) :
  exists res,
    analyze_color_evolution format_2f (Some lc_constant_color)
    = Returns (Some res) /\
    ce_mean_color_gr res == 1 /\
    ce_color_slope_per_day res == 0 /\
    ce_status res = "STABLE"%string /\
    ce_is_significant_evolution res = false.
Proof.
  eexists. split; [vm_compute; reflexivity|]. repeat split; try qcompute.
Qed.

Example scenario_no_light_curve (np_sqrt : Q -> Q) (format_2f : Q -> string)
  (source_dict : CatalogRecord) :
  analyze_lc np_sqrt format_2f source_dict None = Returns None.
Proof. reflexivity. Qed.

Example scenario_mean_17 (np_sqrt : Q -> Q) :
  exists res,
    analyze_brightness np_sqrt (Some (raw lc_faint)) = Some res /\
    br_priority res = "TOO_FAINT"%string.
Proof. eexists. split; reflexivity. Qed.

(** C6: a light curve whose g band has two detections at its first epoch
    passes the sample-count and the baseline tests; both interpolants are
    built; the evaluation of the g interpolant at the first grid point
    divides by zero, which is no exception: the except clause is not
    entered and the analyser does not return None. *)
Theorem analyze_color_evolution_duplicate_epoch :
  (3 <= length (lc_g lc_duplicate_epoch))%nat /\
  (3 <= length (lc_r lc_duplicate_epoch))%nat /\
  well_formed lc_duplicate_epoch /\
  time_window lc_duplicate_epoch 0 200 /\
  ~ distinct_times (lc_times_g lc_duplicate_epoch) /\
  (exists f_g f_r,
      interp1d (lc_times_g lc_duplicate_epoch) (lc_g lc_duplicate_epoch)
      = Returns f_g /\
      interp1d (lc_times_r lc_duplicate_epoch) (lc_r lc_duplicate_epoch)
      = Returns f_r /\
      call_linear f_g 0 = NonFinite) /\
  (forall format_2f,
      analyze_color_evolution format_2f (Some lc_duplicate_epoch)
      = NonFinite) /\
  (forall format_2f,
      analyze_color_evolution format_2f (Some lc_duplicate_epoch)
      <> Returns None).
Proof.
  split; [cbn; lia|]. split; [cbn; lia|]. split; [split; reflexivity|].
  split.
  { exists 0, 0, 200, 200. cbn [lc_duplicate_epoch lc_times_g lc_times_r].
    repeat split; try (cbn; auto 10; fail);
      try (repeat constructor; qcompute); qcompute. }
  split.
  { intro H. inversion H as [|a l Ha Hl]; subst.
    inversion Ha as [|b l' Hb _]; subst. apply Hb. reflexivity. }
  split.
  { eexists. eexists. split; [reflexivity|]. split; reflexivity. }
  split.
  - intro format_2f. reflexivity.
  - intro format_2f. discriminate.
Qed.

(** All times equal: the least-squares system is rank deficient. *)
Example single_epoch_leaves_model :
  analyze_fading
    (Some {| lc_g := []; lc_r := [14; 14; 14; 14; 14]; lc_times_g := [];
             lc_times_r := [58000; 58000; 58000; 58000; 58000] |})
    EmptyString
  = NonFinite.
Proof. reflexivity. Qed.

(** * Further properties of the code *)

(** ** _parse_ztf_response *)

Lemma parse_observation_bands (lc : LightCurve) (o : observation) :
  let lc' := parse_observation lc o in
  lc_g lc' = lc_g lc ++ map fst (usable_samples "g" [o]) /\
  lc_times_g lc' = lc_times_g lc ++ map snd (usable_samples "g" [o]) /\
  lc_r lc' = lc_r lc ++ map fst (usable_samples "r" [o]) /\
  lc_times_r lc' = lc_times_r lc ++ map snd (usable_samples "r" [o]).
Proof.
  unfold parse_observation, usable_samples, usable, band_of.
  destruct (ob_mag o) as [mag|], (ob_mjd o) as [mjd|];
    cbn [map fst snd]; rewrite ?app_nil_r; try tauto.
  set (band := lower match ob_filtercode o with Some f => f | None => "g"%string end).
  destruct (String.eqb band "g") eqn:Eg.
  - apply String.eqb_eq in Eg. rewrite Eg. cbn.
    rewrite ?app_nil_r. tauto.
  - destruct (String.eqb band "r") eqn:Er; cbn; rewrite ?app_nil_r; tauto.
Qed.

Lemma usable_samples_app (b : string) (l l' : list observation) :
  usable_samples b (l ++ l') = usable_samples b l ++ usable_samples b l'.
Proof.
  induction l as [|o l IH]; [reflexivity|].
  cbn [app usable_samples]. destruct (usable b o); rewrite IH; reflexivity.
Qed.

Lemma parse_loop_bands (ztf_data : list observation) (lc : LightCurve) :
  let lc' := fold_left parse_observation ztf_data lc in
  lc_g lc' = lc_g lc ++ map fst (usable_samples "g" ztf_data) /\
  lc_times_g lc' = lc_times_g lc ++ map snd (usable_samples "g" ztf_data) /\
  lc_r lc' = lc_r lc ++ map fst (usable_samples "r" ztf_data) /\
  lc_times_r lc' = lc_times_r lc ++ map snd (usable_samples "r" ztf_data).
Proof.
  revert lc. induction ztf_data as [|o rest IH]; intro lc.
  - cbn. rewrite !app_nil_r. tauto.
  - cbn [fold_left].
    destruct (IH (parse_observation lc o)) as (E1 & E2 & E3 & E4).
    destruct (parse_observation_bands lc o) as (F1 & F2 & F3 & F4).
    cbv zeta. rewrite E1, E2, E3, E4, F1, F2, F3, F4.
    change (o :: rest) with ([o] ++ rest).
    rewrite !usable_samples_app, !map_app, <- !app_assoc. tauto.
Qed.

Lemma parse_contents (ztf_data : list observation) :
  (_parse_ztf_response ztf_data = None <->
   usable_samples "g" ztf_data = [] /\ usable_samples "r" ztf_data = []) /\
  (forall lc,
      _parse_ztf_response ztf_data = Some lc ->
      lc_g lc = map fst (usable_samples "g" ztf_data) /\
      lc_times_g lc = map snd (usable_samples "g" ztf_data) /\
      lc_r lc = map fst (usable_samples "r" ztf_data) /\
      lc_times_r lc = map snd (usable_samples "r" ztf_data)).
Proof.
  unfold _parse_ztf_response.
  destruct (parse_loop_bands ztf_data empty_lc) as (E1 & E2 & E3 & E4).
  cbv zeta in *. cbn [empty_lc lc_g lc_r lc_times_g lc_times_r app] in *.
  set (lc' := fold_left parse_observation ztf_data empty_lc) in *.
  rewrite E1, E3.
  destruct (usable_samples "g" ztf_data) as [|pg lg];
    destruct (usable_samples "r" ztf_data) as [|pr lr]; cbn [map nonempty orb];
    (split; [split; [intro H|intros [H1 H2]]; try discriminate; auto|]);
    intros lc H; try discriminate; injection H as <-; tauto.
Qed.

(** X1: [_parse_ztf_response] files, in input order, under each band exactly
    the observations that carry a magnitude and a time and whose lower-cased
    filter code (['g'] when missing) is that band; it returns None exactly
    when no observation qualifies for either band. *)
Theorem parse_ztf_response_contents (ztf_data : list observation) :
  (_parse_ztf_response ztf_data = None <->
   usable_samples "g" ztf_data = [] /\ usable_samples "r" ztf_data = []) /\
  (forall lc,
      _parse_ztf_response ztf_data = Some lc ->
      lc_g lc = map fst (usable_samples "g" ztf_data) /\
      lc_times_g lc = map snd (usable_samples "g" ztf_data) /\
      lc_r lc = map fst (usable_samples "r" ztf_data) /\
      lc_times_r lc = map snd (usable_samples "r" ztf_data)).
Proof. exact (parse_contents ztf_data). Qed.

(** X2: every light curve returned by [_parse_ztf_response] has one
    timestamp per magnitude in both bands and at least one sample. *)
Theorem parse_ztf_response_well_formed (ztf_data : list observation)
  (lc : LightCurve) :
  _parse_ztf_response ztf_data = Some lc ->
  well_formed lc /\ (lc_g lc <> [] \/ lc_r lc <> []).
Proof.
  intro H.
  destruct (parse_contents ztf_data) as [Hnone Hsome].
  destruct (Hsome lc H) as (E1 & E2 & E3 & E4).
  split.
  - unfold well_formed. rewrite E1, E2, E3, E4, !length_map. tauto.
  - rewrite E1, E3.
    destruct (usable_samples "g" ztf_data) as [|pg lg] eqn:Eg;
      [|left; discriminate].
    destruct (usable_samples "r" ztf_data) as [|pr lr] eqn:Er;
      [|right; discriminate].
    exfalso. assert (N : _parse_ztf_response ztf_data = None)
      by (apply Hnone; tauto). congruence.
Qed.

(** ** query_ztf_lightcurve *)

Lemma query_real_data (rnd : NumpyRandom) (py_hash : string -> Z)
  (np_sin : Q -> Q) (np_pi : Q) (HAS_REQUESTS : bool)
  (self : ZTFAnalyzer) (net : http_reply) (s : rng_state rnd)
  (ra dec : Q) (object_name : string) (ztf_data : list observation) :
  real_data HAS_REQUESTS net ztf_data ->
  query_ztf_lightcurve rnd py_hash np_sin np_pi HAS_REQUESTS
                       self net s ra dec object_name
  = (Returns (_parse_ztf_response ztf_data),
     {| ztf_token := ztf_token self;
        output_dir := output_dir self;
        use_real_data := true |},
     s).
Proof.
  intros (-> & -> & Hne). unfold query_ztf_lightcurve. cbn [negb].
  destruct ztf_data as [|o rest]; [congruence|reflexivity].
Qed.

Lemma query_cases (rnd : NumpyRandom) (py_hash : string -> Z)
  (np_sin : Q -> Q) (np_pi : Q) (HAS_REQUESTS : bool)
  (self : ZTFAnalyzer) (net : http_reply) (s : rng_state rnd)
  (ra dec : Q) (object_name : string) :
  (exists ztf_data, real_data HAS_REQUESTS net ztf_data) \/
  query_ztf_lightcurve rnd py_hash np_sin np_pi HAS_REQUESTS
                       self net s ra dec object_name
  = (let '(lc, s') :=
       _generate_synthetic_lc rnd py_hash np_sin np_pi object_name ra dec s in
     (lc_dict <- lc ;; Returns (Some lc_dict), self, s')).
Proof.
  unfold query_ztf_lightcurve, real_data.
  destruct HAS_REQUESTS; cbn [negb]; [|right; reflexivity].
  destruct net as [|code [[|o rest]|]]; try (right; reflexivity).
  - destruct code as [|p|p]; try (right; reflexivity).
    do 8 (destruct p as [p|p|]; try (right; reflexivity)).
  - destruct code as [|p|p]; try (right; reflexivity).
    do 8 (destruct p as [p|p|]; try (right; reflexivity)).
    left. exists (o :: rest). repeat split. discriminate.
  - destruct code as [|p|p]; try (right; reflexivity).
    do 8 (destruct p as [p|p|]; try (right; reflexivity)).
Qed.

(** X3: [query_ztf_lightcurve] returns None only on the real-data path: the
    reply was a 200 with a non-empty result list of which no observation is
    usable; the synthetic generator is then not consulted (the random
    generator is left as it was) and [use_real_data] is set. *)
Theorem query_none_only_from_real_data (rnd : NumpyRandom)
  (py_hash : string -> Z) (np_sin : Q -> Q) (np_pi : Q) (HAS_REQUESTS : bool)
  (self self' : ZTFAnalyzer) (net : http_reply) (s s' : rng_state rnd)
  (ra dec : Q) (object_name : string) :
  query_ztf_lightcurve rnd py_hash np_sin np_pi HAS_REQUESTS
                       self net s ra dec object_name
  = (Returns None, self', s') ->
  exists ztf_data,
    real_data HAS_REQUESTS net ztf_data /\
    usable_samples "g" ztf_data = [] /\ usable_samples "r" ztf_data = [] /\
    s' = s /\ use_real_data self' = true.
Proof.
  intro H.
  destruct (query_cases rnd py_hash np_sin np_pi HAS_REQUESTS self net s
              ra dec object_name) as [(ztf_data & Hr)|E].
  - rewrite (query_real_data _ _ _ _ _ _ _ _ _ _ _ _ Hr) in H.
    injection H as Hp <- <-.
    exists ztf_data. split; [exact Hr|].
    apply (proj1 (parse_contents ztf_data)) in Hp.
    destruct Hp. repeat split; assumption.
  - rewrite E in H.
    destruct (_generate_synthetic_lc rnd py_hash np_sin np_pi
                object_name ra dec s) as [[lc| |] s0]; cbn [bind] in H;
      discriminate.
Qed.

(** X4: [use_real_data] is never cleared by a query, and it is set exactly
    by a 200 reply with a non-empty result list; on every other reply the
    analyser is returned unchanged. *)
Theorem query_use_real_data (rnd : NumpyRandom)
  (py_hash : string -> Z) (np_sin : Q -> Q) (np_pi : Q) (HAS_REQUESTS : bool)
  (self : ZTFAnalyzer) (net : http_reply) (s : rng_state rnd)
  (ra dec : Q) (object_name : string) :
  let self' :=
    snd (fst (query_ztf_lightcurve rnd py_hash np_sin np_pi HAS_REQUESTS
                self net s ra dec object_name)) in
  (use_real_data self = true -> use_real_data self' = true) /\
  ((exists ztf_data, real_data HAS_REQUESTS net ztf_data) ->
   use_real_data self' = true) /\
  (~ (exists ztf_data, real_data HAS_REQUESTS net ztf_data) ->
   self' = self) /\
  ztf_token self' = ztf_token self /\ output_dir self' = output_dir self.
Proof.
  intro self'. subst self'.
  assert (Hreal : forall ztf_data,
             real_data HAS_REQUESTS net ztf_data ->
             snd (fst (query_ztf_lightcurve rnd py_hash np_sin np_pi
                         HAS_REQUESTS self net s ra dec object_name))
             = {| ztf_token := ztf_token self;
                  output_dir := output_dir self;
                  use_real_data := true |}).
  { intros ztf_data Hr.
    now rewrite (query_real_data _ _ _ _ _ _ _ _ _ _ _ _ Hr). }
  destruct (query_cases rnd py_hash np_sin np_pi HAS_REQUESTS self net s
              ra dec object_name) as [(ztf_data & Hr)|E].
  - rewrite (Hreal ztf_data Hr). cbn.
    repeat split; auto. intro N. exfalso. apply N. exists ztf_data. exact Hr.
  - split; [|split; [|split]].
    + rewrite E.
      destruct (_generate_synthetic_lc rnd py_hash np_sin np_pi
                  object_name ra dec s) as [lc s0]. cbn [fst snd]. auto.
    + intros (ztf_data & Hr). rewrite (Hreal ztf_data Hr). reflexivity.
    + intros _. rewrite E.
      destruct (_generate_synthetic_lc rnd py_hash np_sin np_pi
                  object_name ra dec s) as [lc s0]. reflexivity.
    + rewrite E.
      destruct (_generate_synthetic_lc rnd py_hash np_sin np_pi
                  object_name ra dec s) as [lc s0]. cbn [fst snd]. auto.
Qed.

(** ** _generate_synthetic_lc *)

Lemma draw_n_length {S : Type} (draw : S -> Q * S) (n : nat) (s s' : S)
  (l : list Q) :
  draw_n draw n s = (l, s') -> length l = n.
Proof.
  revert s s' l. induction n as [|n IH]; intros s s' l H; cbn [draw_n] in H.
  - injection H as <- _. reflexivity.
  - destruct (draw s) as [x s1].
    destruct (draw_n draw n s1) as [xs s2] eqn:E.
    injection H as <- _. cbn [length]. f_equal. exact (IH _ _ _ E).
Qed.

Lemma insert_sorted_length (x : Q) (l : list Q) :
  length (insert_sorted x l) = S (length l).
Proof.
  induction l as [|y l IH]; cbn [insert_sorted]; [reflexivity|].
  destruct (Qle_bool x y); cbn [length]; congruence.
Qed.

Lemma np_sort_length (l : list Q) : length (np_sort l) = length l.
Proof.
  induction l as [|x l IH]; [reflexivity|].
  unfold np_sort in *. cbn [fold_right].
  rewrite insert_sorted_length. cbn [length]. congruence.
Qed.

Lemma insert_sorted_In (x y : Q) (l : list Q) :
  In y (insert_sorted x l) <-> y = x \/ In y l.
Proof.
  induction l as [|z l IH]; cbn [insert_sorted].
  - simpl. intuition congruence.
  - destruct (Qle_bool x z); simpl in *; rewrite ?IH; intuition congruence.
Qed.

Lemma insert_sorted_sorted (x : Q) (l : list Q) :
  StronglySorted Qle l -> StronglySorted Qle (insert_sorted x l).
Proof.
  induction 1 as [|y l Hs IH Hy]; cbn [insert_sorted].
  - repeat constructor.
  - destruct (Qle_bool x y) eqn:E.
    + apply Qle_bool_iff in E.
      constructor; [constructor; assumption|].
      constructor; [exact E|].
      eapply Forall_impl; [|exact Hy]. intros a Ha. cbv beta in Ha. lra.
    + assert (Hlt : y < x).
      { apply Qnot_le_lt. intro H. apply Qle_bool_iff in H. congruence. }
      constructor; [exact IH|].
      apply Forall_forall. intros a Ha.
      apply insert_sorted_In in Ha. destruct Ha as [->|Ha].
      * lra.
      * rewrite Forall_forall in Hy. apply Hy, Ha.
Qed.

Lemma np_sort_sorted (l : list Q) : StronglySorted Qle (np_sort l).
Proof.
  induction l as [|x l IH]; [constructor|].
  unfold np_sort in *. cbn [fold_right]. apply insert_sorted_sorted, IH.
Qed.

Lemma array_add_length (a b : list Q) :
  length a = length b -> length (array_add a b) = length a.
Proof.
  intro H. unfold array_add. rewrite length_map, length_combine, <- H.
  apply Nat.min_id.
Qed.

Ltac split_draws :=
  repeat match goal with
         | H : context [let '(_, _) := ?e in _] |- _ =>
             let x := fresh "x" in
             let st := fresh "st" in
             let E := fresh "E" in
             destruct e as [x st] eqn:E
         end.

Lemma synthetic_shape (rnd : NumpyRandom) (py_hash : string -> Z)
  (np_sin : Q -> Q) (np_pi : Q) (object_name : string) (ra dec : Q)
  (s s' : rng_state rnd) (lc : LightCurve) :
  _generate_synthetic_lc rnd py_hash np_sin np_pi object_name ra dec s
  = (Returns lc, s') ->
  let n := Z.to_nat (fst (random_randint rnd 30 150
                            (random_seed rnd (py_hash object_name mod 2 ^ 32)%Z))) in
  (0 < n)%nat /\
  length (lc_g lc) = n /\ length (lc_r lc) = n /\
  length (lc_times_g lc) = n /\ length (lc_times_r lc) = n /\
  StronglySorted Qle (lc_times_g lc) /\ StronglySorted Qle (lc_times_r lc).
Proof.
  intros H n. unfold _generate_synthetic_lc in H.
  split_draws.
  subst n. cbn [fst].
  set (n := Z.to_nat x) in *.
  pose proof (draw_n_length _ _ _ _ _ E0) as L0.
  pose proof (draw_n_length _ _ _ _ _ E1) as L1.
  pose proof (draw_n_length _ _ _ _ _ E5) as L5.
  pose proof (draw_n_length _ _ _ _ _ E6) as L6.
  pose proof (np_sort_length x0) as S0. pose proof (np_sort_length x1) as S1.
  pose proof (np_sort_sorted x0) as O0. pose proof (np_sort_sorted x1) as O1.
  destruct (np_sort x0) as [|tg0 tg] eqn:Eg; [discriminate|].
  destruct (np_sort x1) as [|tr0 tr] eqn:Er; [discriminate|].
  split_draws.
  injection H as <- _. cbn [lc_g lc_r lc_times_g lc_times_r].
  rewrite !array_add_length; rewrite ?length_map, ?array_add_length,
    ?length_map; try congruence.
  repeat split; try congruence; try assumption.
  rewrite <- L0, <- S0. cbn. lia.
  all: cbn [length] in *; rewrite ?length_map; lia.
Qed.

(** X5: whenever the synthetic generator returns, the light curve holds the
    same positive number n of samples in each of its four lists, n being
    the integer drawn first after re-seeding, and the times of each band
    are in ascending order. *)
Theorem synthetic_lc_shape (rnd : NumpyRandom) (py_hash : string -> Z)
  (np_sin : Q -> Q) (np_pi : Q) (object_name : string) (ra dec : Q)
  (s s' : rng_state rnd) (lc : LightCurve) :
  _generate_synthetic_lc rnd py_hash np_sin np_pi object_name ra dec s
  = (Returns lc, s') ->
  let n := Z.to_nat (fst (random_randint rnd 30 150
                            (random_seed rnd (py_hash object_name mod 2 ^ 32)%Z))) in
  (0 < n)%nat /\
  length (lc_g lc) = n /\ length (lc_r lc) = n /\
  length (lc_times_g lc) = n /\ length (lc_times_r lc) = n /\
  StronglySorted Qle (lc_times_g lc) /\ StronglySorted Qle (lc_times_r lc).
Proof. exact (synthetic_shape rnd py_hash np_sin np_pi object_name ra dec
                              s s' lc). Qed.

(** ** The analysers on well-formed and on ragged light curves *)

Lemma map_outcome_length {A B : Type} (f : A -> outcome B) (l : list A)
  (bs : list B) :
  map_outcome f l = Returns bs -> length bs = length l.
Proof.
  revert bs. induction l as [|a l IH]; intros bs H; cbn [map_outcome] in H.
  - injection H as <-. reflexivity.
  - destruct (f a) as [b| |]; cbn [bind] in H; try discriminate.
    destruct (map_outcome f l) as [bs'| |]; cbn [bind] in H; try discriminate.
    injection H as <-. cbn [length]. f_equal. apply IH. reflexivity.
Qed.

Lemma map_outcome_no_raise {A B : Type} (f : A -> outcome B) (l : list A) :
  (forall a e, f a <> Raises e) -> forall e, map_outcome f l <> Raises e.
Proof.
  intros Hf e. induction l as [|a l IH]; cbn [map_outcome]; [discriminate|].
  destruct (f a) as [b|e'|] eqn:E; cbn [bind]; try discriminate.
  - destruct (map_outcome f l) as [bs|e'|]; cbn [bind]; try discriminate.
    exact IH.
  - exfalso. exact (Hf a e' E).
Qed.

Lemma call_linear_no_raise (table : list (Q * Q)) (x : Q) (e : exn) :
  call_linear table x <> Raises e.
Proof.
  unfold call_linear.
  match goal with |- context [Qeq_bool ?a ?b] => destruct (Qeq_bool a b) end;
    discriminate.
Qed.

Lemma polyfit1_no_raise (x y : list Q) (e : exn) :
  length x = length y -> x <> [] -> polyfit1 x y <> Raises e.
Proof.
  intros H Hne. unfold polyfit1.
  destruct x as [|a x]; [congruence|]. cbn [length Nat.eqb].
  rewrite <- H. cbn [length]. rewrite Nat.eqb_refl. cbn [negb].
  match goal with |- context [Qeq_bool ?a ?b] => destruct (Qeq_bool a b) end;
    discriminate.
Qed.

Lemma fading_total (lc : LightCurve) (name : string) :
  length (lc_times_r lc) = length (lc_r lc) ->
  (forall e, analyze_fading (Some lc) name <> Raises e) /\
  ((5 <= length (lc_r lc))%nat ->
   analyze_fading (Some lc) name <> Returns None).
Proof.
  intro Hlen. unfold analyze_fading.
  destruct (length (lc_r lc) <? 5)%nat eqn:E5.
  - split; [discriminate|]. apply Nat.ltb_lt in E5. lia.
  - apply Nat.ltb_ge in E5.
    assert (Hne : lc_times_r lc <> []).
    { intro E. rewrite E in Hlen. simpl in Hlen. lia. }
    destruct (polyfit1 (lc_times_r lc) (lc_r lc)) as [c|e'|] eqn:Ep;
      cbn [bind]; split; try discriminate.
    exfalso. exact (polyfit1_no_raise _ _ e' Hlen Hne Ep).
Qed.

(** X6: on a light curve with one timestamp per r magnitude,
    [analyze_fading] never raises; with at least 5 r samples it never
    returns None either (it returns a result, or the fit is rank-deficient
    and the run leaves the exact model). *)
Theorem analyze_fading_no_raise (lc : LightCurve) (name : string) :
  length (lc_times_r lc) = length (lc_r lc) ->
  (forall e, analyze_fading (Some lc) name <> Raises e) /\
  ((5 <= length (lc_r lc))%nat ->
   analyze_fading (Some lc) name <> Returns None).
Proof. exact (fading_total lc name). Qed.

(** X7: [analyze_fading] has no guard on the times: with at least 5 r
    magnitudes and a different number of r times, the TypeError of the fit
    escapes. *)
Theorem analyze_fading_ragged (lc : LightCurve) (name : string) :
  (5 <= length (lc_r lc))%nat ->
  length (lc_times_r lc) <> length (lc_r lc) ->
  analyze_fading (Some lc) name = Raises TypeError.
Proof.
  intros H5 Hne. unfold analyze_fading.
  assert (E5 : (length (lc_r lc) <? 5)%nat = false) by (apply Nat.ltb_ge; lia).
  rewrite E5. unfold polyfit1.
  destruct (length (lc_times_r lc) =? 0)%nat; [reflexivity|].
  apply Nat.eqb_neq in Hne. rewrite Hne. reflexivity.
Qed.

Lemma color_total (format_2f : Q -> string)
  (lc : LightCurve) (e : exn) :
  well_formed lc ->
  analyze_color_evolution format_2f (Some lc) <> Raises e.
Proof.
  intros [Wg Wr]. unfold analyze_color_evolution.
  destruct ((length (lc_g lc) <? 3)%nat || (length (lc_r lc) <? 3)%nat)
    eqn:E3; [discriminate|].
  apply orb_false_iff in E3. destruct E3 as [Eg Er].
  apply Nat.ltb_ge in Eg, Er.
  destruct (window_ends_exist lc) as (g0 & r0 & g1 & r1 & W);
    try (apply (nonempty_of_length _ 2); lia).
  rewrite (we_g0 _ _ _ _ _ W), (we_r0 _ _ _ _ _ W),
          (we_g1 _ _ _ _ _ W), (we_r1 _ _ _ _ _ W).
  cbn [bind].
  destruct (Qlt_bool (py_min g1 r1 - py_max g0 r0) 100); [discriminate|].
  set (grid := linspace (py_max g0 r0) (py_min g1 r1)
                        (Nat.min (length (lc_g lc)) (length (lc_r lc)))).
  destruct (interpolate_bands lc grid) as [[gi ri]|e'|] eqn:Ei;
    try discriminate.
  unfold interpolate_bands in Ei.
  rewrite (interp1d_ok _ _ Wg) in Ei by (apply (nonempty_of_length _ 2); lia).
  rewrite (interp1d_ok _ _ Wr) in Ei by (apply (nonempty_of_length _ 2); lia).
  cbn [bind] in Ei.
  destruct (map_outcome _ grid) as [gi'| |] eqn:Egi in Ei; cbn [bind] in Ei;
    try discriminate.
  destruct (map_outcome _ grid) as [ri'| |] eqn:Eri in Ei; cbn [bind] in Ei;
    try discriminate.
  injection Ei as <- <-.
  apply map_outcome_length in Egi, Eri.
  assert (Hgrid : length grid
                  = Nat.min (length (lc_g lc)) (length (lc_r lc)))
    by apply linspace_length.
  destruct (polyfit1 grid (array_sub gi' ri')) as [c|e'|] eqn:Ep; cbn [bind];
    try discriminate.
  exfalso. refine (polyfit1_no_raise grid (array_sub gi' ri') e' _ _ Ep).
  - rewrite array_sub_length; congruence.
  - apply (nonempty_of_length _ 2). lia.
Qed.

(** X8: on a well-formed light curve [analyze_color_evolution] raises
    neither the ValueError of a minimum over no time nor the TypeError of
    the fit: no exception of the model escapes it.  (Equal times inside a
    band, where the interpolation divides by zero, are the separate
    non-finite outcome.) *)
Theorem analyze_color_evolution_no_raise (format_2f : Q -> string)
  (lc : LightCurve) (e : exn) :
  well_formed lc ->
  analyze_color_evolution format_2f (Some lc) <> Raises e.
Proof. exact (color_total format_2f lc e). Qed.

(** X9: the times are read before the try block: with at least 3
    magnitudes in each band and no g or no r time at all,
    [analyze_color_evolution] raises ValueError instead of returning
    None. *)
Theorem analyze_color_evolution_no_times (format_2f : Q -> string)
  (lc : LightCurve) :
  (3 <= length (lc_g lc))%nat -> (3 <= length (lc_r lc))%nat ->
  lc_times_g lc = [] \/ lc_times_r lc = [] ->
  analyze_color_evolution format_2f (Some lc) = Raises ValueError.
Proof.
  intros Hg Hr Hno. unfold analyze_color_evolution.
  assert (E3 : ((length (lc_g lc) <? 3)%nat || (length (lc_r lc) <? 3)%nat)
               = false).
  { apply orb_false_iff. split; apply Nat.ltb_ge; lia. }
  rewrite E3.
  destruct Hno as [E|E]; rewrite E; cbn [np_min bind]; [reflexivity|].
  destruct (np_min (lc_times_g lc)) as [m|e|] eqn:Em; cbn [bind];
    try reflexivity.
  - destruct (lc_times_g lc); cbn in Em; [|discriminate].
    injection Em as <-. reflexivity.
  - destruct (lc_times_g lc); cbn in Em; discriminate.
Qed.

(** ** Flags and labels agree *)

(** X10: the fading flag and the status label of a result never disagree:
    a source flagged as fading carries the FADING label, and a source
    labelled STABLE or BRIGHTENING is not flagged. *)
Theorem fading_flag_matches_label (lc : LightCurve) (name : string)
  (res : FadingResult) :
  analyze_fading (Some lc) name = Returns (Some res) ->
  (fr_is_fading res = true ->
   fr_status res = "FADING (brightening in mag = getting dimmer)"%string) /\
  (fr_status res = "STABLE"%string \/
   fr_status res
   = "BRIGHTENING (dimming in mag = getting brighter)"%string ->
   fr_is_fading res = false).
Proof.
  intro H.
  destruct (analyze_fading_inv lc name res H) as (_ & Es & Em & Ef & _).
  assert (Hflag : fr_is_fading res = true ->
                  0.0001 < fr_slope_mag_per_day res).
  { rewrite Ef, Em. intro Ht. apply Qlt_bool_iff in Ht. lra. }
  split.
  - intro Ht. rewrite Es. apply fading_status_fading, Hflag, Ht.
  - intro Hl. destruct (fr_is_fading res) eqn:Et; [|reflexivity].
    specialize (Hflag eq_refl).
    rewrite Es, (fading_status_fading _ Hflag) in Hl.
    destruct Hl; discriminate.
Qed.

Lemma analyze_color_evolution_inv (format_2f : Q -> string)
  (lc : LightCurve) (res : ColorEvolutionResult) :
  analyze_color_evolution format_2f (Some lc) = Returns (Some res) ->
  ce_status res = color_status_of format_2f (ce_color_slope_per_day res)
                                  (ce_color_change_1yr res) /\
  ce_color_change_1yr res = ce_color_slope_per_day res * 365 /\
  ce_is_significant_evolution res
  = Qlt_bool 0.1 (Qabs (ce_color_change_1yr res)) /\
  100 <= ce_baseline_days res.
Proof.
  intro H. unfold analyze_color_evolution in H.
  destruct ((length (lc_g lc) <? 3)%nat || (length (lc_r lc) <? 3)%nat);
    [discriminate|].
  destruct (np_min (lc_times_g lc)) as [g0| |]; try discriminate.
  destruct (np_min (lc_times_r lc)) as [r0| |]; try discriminate.
  destruct (np_max (lc_times_g lc)) as [g1| |]; try discriminate.
  destruct (np_max (lc_times_r lc)) as [r1| |]; try discriminate.
  cbn [bind] in H.
  destruct (Qlt_bool (py_min g1 r1 - py_max g0 r0) 100) eqn:E100;
    [discriminate|].
  apply Qlt_bool_false_iff in E100.
  destruct (interpolate_bands lc _) as [[gi ri]| |]; try discriminate.
  destruct (polyfit1 _ _) as [[a b]| |]; try discriminate.
  cbn [bind] in H. injection H as <-. cbn. repeat split. exact E100.
Qed.

(** X11: the significance flag and the colour label never disagree: a
    significant evolution is labelled REDDENING when the slope is positive
    and BLUEING when it is negative, never STABLE, and a STABLE colour is
    never flagged; the baseline of a result is at least 100 days. *)
Theorem color_flag_matches_label (format_2f : Q -> string)
  (lc : LightCurve) (res : ColorEvolutionResult) :
  analyze_color_evolution format_2f (Some lc) = Returns (Some res) ->
  (ce_is_significant_evolution res = true ->
   (0 < ce_color_slope_per_day res ->
    String.prefix "REDDENING" (ce_status res) = true) /\
   (ce_color_slope_per_day res < 0 ->
    String.prefix "BLUEING" (ce_status res) = true) /\
   ce_status res <> "STABLE"%string) /\
  (ce_status res = "STABLE"%string ->
   ce_is_significant_evolution res = false) /\
  100 <= ce_baseline_days res.
Proof.
  intro H.
  destruct (analyze_color_evolution_inv format_2f lc res H)
    as (Es & Em & Ef & Hb).
  set (slope := ce_color_slope_per_day res) in *.
  assert (Hsig : ce_is_significant_evolution res = true ->
                 0.0001 < slope \/ slope <= - 0.0001).
  { rewrite Ef, Em. intro Ht. apply Qlt_bool_iff in Ht.
    destruct (Qlt_le_dec (slope * 365) 0) as [Hn|Hp].
    - rewrite Qabs_neg in Ht by lra. right. lra.
    - rewrite Qabs_pos in Ht by lra. left. lra. }
  assert (Hlabel : ce_is_significant_evolution res = true ->
                   (0 < slope ->
                    String.prefix "REDDENING" (ce_status res) = true) /\
                   (slope < 0 ->
                    String.prefix "BLUEING" (ce_status res) = true) /\
                   ce_status res <> "STABLE"%string).
  { intro Ht. rewrite Es. destruct (Hsig Ht) as [Hp|Hn].
    - rewrite (color_status_reddening _ _ _ Hp).
      repeat split; try reflexivity; try discriminate. intro; exfalso; lra.
    - rewrite (color_status_blueing _ _ _ Hn).
      repeat split; try reflexivity; try discriminate. intro; exfalso; lra. }
  split; [exact Hlabel|]. split; [|exact Hb].
  intro Hst. destruct (ce_is_significant_evolution res) eqn:Et;
    [|reflexivity].
  destruct (Hlabel eq_refl) as (_ & _ & Hne). congruence.
Qed.

(** ** The grid stays inside both bands *)

(** X12: every time of the common grid lies between the first and the last
    observation of each band, so the interpolants are never evaluated
    outside their data. *)
Theorem common_grid_inside_bands (lc : LightCurve) (g0 r0 g1 r1 : Q)
  (num : nat) :
  np_min (lc_times_g lc) = Returns g0 ->
  np_min (lc_times_r lc) = Returns r0 ->
  np_max (lc_times_g lc) = Returns g1 ->
  np_max (lc_times_r lc) = Returns r1 ->
  (2 <= num)%nat -> py_max g0 r0 <= py_min g1 r1 ->
  list_min (lc_times_g lc) g0 /\ list_max (lc_times_g lc) g1 /\
  list_min (lc_times_r lc) r0 /\ list_max (lc_times_r lc) r1 /\
  Forall (fun x => (g0 <= x <= g1) /\ (r0 <= x <= r1))
         (linspace (py_max g0 r0) (py_min g1 r1) num).
Proof.
  intros H1 H2 H3 H4 Hn Hle.
  split; [exact (np_min_returns _ _ H1)|].
  split; [exact (np_max_returns _ _ H3)|].
  split; [exact (np_min_returns _ _ H2)|].
  split; [exact (np_max_returns _ _ H4)|].
  destruct (py_max_spec g0 r0) as (_ & Hs1 & Hs2).
  destruct (py_min_spec g1 r1) as (_ & He1 & He2).
  eapply Forall_impl; [|exact (linspace_bounds _ _ num Hn Hle)].
  intros x Hx. cbv beta in Hx. split; split; lra.
Qed.

(** ** Zero points *)

Lemma np_sum_shift (d : Q) (l : list Q) :
  np_sum (map (fun t => t + d) l) == np_sum l + Qlen l * d.
Proof.
  induction l as [|x l IH].
  - unfold Qlen. cbn. ring.
  - cbn [map np_sum fold_right]. fold (np_sum (map (fun t => t + d) l)).
    fold (np_sum l). rewrite Qlen_cons, IH. ring.
Qed.

Lemma Qlen_map (f : Q -> Q) (l : list Q) : Qlen (map f l) = Qlen l.
Proof. unfold Qlen. now rewrite length_map. Qed.

Lemma dot_cons (a b : Q) (x y : list Q) :
  dot (a :: x) (b :: y) == a * b + dot x y.
Proof. unfold dot. cbn. reflexivity. Qed.

Lemma dot_shift (a b : Q) (x y : list Q) :
  length x = length y ->
  dot (map (fun t => t + a) x) (map (fun t => t + b) y) ==
  dot x y + b * np_sum x + a * np_sum y + Qlen x * a * b.
Proof.
  revert y. induction x as [|u x IH]; intros [|v y] H; try discriminate.
  - unfold dot, Qlen. cbn. ring.
  - injection H as H. cbn [map]. rewrite !dot_cons, (IH y H), Qlen_cons.
    cbn [np_sum fold_right]. fold (np_sum x). fold (np_sum y). ring.
Qed.

Lemma sxy_shift (a b : Q) (x y : list Q) :
  length x = length y ->
  sxy (map (fun t => t + a) x) (map (fun t => t + b) y) == sxy x y.
Proof.
  intro H. unfold sxy.
  rewrite (dot_shift a b x y H), !np_sum_shift, Qlen_map.
  rewrite <- (Qlen_length x y H). ring.
Qed.

Lemma sxx_shift (a : Q) (x : list Q) :
  sxx (map (fun t => t + a) x) == sxx x.
Proof. rewrite !sxx_as_sxy. apply sxy_shift. reflexivity. Qed.

Lemma fit_slope_shift (a b : Q) (x y : list Q) :
  length x = length y ->
  fit_slope (map (fun t => t + a) x) (map (fun t => t + b) y)
  == fit_slope x y.
Proof.
  intro H. unfold fit_slope. rewrite (sxy_shift a b x y H), sxx_shift.
  reflexivity.
Qed.

Lemma fading_status_proper (a b : Q) :
  a == b -> fading_status_of a = fading_status_of b.
Proof.
  intro H. unfold fading_status_of.
  rewrite (Qlt_bool_proper (Qabs a) (Qabs b) 0.0001 0.0001)
    by (rewrite ?H; reflexivity).
  rewrite (Qlt_bool_proper 0.0001 0.0001 a b) by (rewrite ?H; reflexivity).
  reflexivity.
Qed.

Lemma polyfit1_returns_inv (x y : list Q) (a b : Q) :
  polyfit1 x y = Returns (a, b) ->
  length x = length y /\ 0 < sxx x /\
  a = fit_slope x y /\ b = fit_intercept x y.
Proof.
  unfold polyfit1.
  destruct (length x =? 0)%nat; [discriminate|].
  destruct (length x =? length y)%nat eqn:El; [|discriminate].
  apply Nat.eqb_eq in El. cbn [negb].
  destruct (Qeq_bool (sxx x) 0) eqn:E; [discriminate|].
  intro H. injection H as <- <-.
  split; [exact El|]. split; [|split; reflexivity].
  pose proof (sxx_nonneg x) as Hn.
  destruct (Qeq_dec (sxx x) 0) as [Hz|Hz].
  - apply Qeq_bool_iff in Hz. congruence.
  - lra.
Qed.

Lemma analyze_fading_returns_inv (lc : LightCurve) (name : string)
  (res : FadingResult) :
  analyze_fading (Some lc) name = Returns (Some res) ->
  (5 <= length (lc_r lc))%nat /\
  length (lc_times_r lc) = length (lc_r lc) /\
  0 < sxx (lc_times_r lc) /\
  fr_slope_mag_per_day res = fit_slope (lc_times_r lc) (lc_r lc).
Proof.
  intro H. pose proof H as H'. unfold analyze_fading in H.
  destruct (length (lc_r lc) <? 5)%nat eqn:E; [discriminate|].
  apply Nat.ltb_ge in E.
  destruct (polyfit1 (lc_times_r lc) (lc_r lc)) as [[a b]| |] eqn:Ep;
    cbn [bind] in H; try discriminate.
  destruct (polyfit1_returns_inv _ _ _ _ Ep) as (Hl & HD & -> & _).
  injection H as <-. cbn. repeat split; assumption.
Qed.

(** X13: the fading analysis does not depend on the zero point of the
    magnitudes nor on the origin of the times: adding a constant to every r
    magnitude and another to every r time leaves the slope, the annual
    change, the flag, the label and the count as they were. *)
Theorem analyze_fading_zero_points (lc : LightCurve) (name : string)
  (dm dt : Q) (res : FadingResult) :
  analyze_fading (Some lc) name = Returns (Some res) ->
  exists res',
    analyze_fading (Some (shift_r dm dt lc)) name = Returns (Some res') /\
    fr_slope_mag_per_day res' == fr_slope_mag_per_day res /\
    fr_mag_change_1yr res' == fr_mag_change_1yr res /\
    fr_is_fading res' = fr_is_fading res /\
    fr_status res' = fr_status res /\
    fr_n_observations res' = fr_n_observations res.
Proof.
  intro H.
  destruct (analyze_fading_returns_inv lc name res H) as (H5 & Hl & HD & Es).
  destruct (analyze_fading_inv lc name res H) as (_ & Est & Em & Ef & En).
  assert (Hs : fit_slope (lc_times_r (shift_r dm dt lc))
                         (lc_r (shift_r dm dt lc))
               == fr_slope_mag_per_day res).
  { rewrite Es. cbn [shift_r lc_times_r lc_r]. apply fit_slope_shift, Hl. }
  eexists. split.
  - apply analyze_fading_fit; cbn [shift_r lc_r lc_times_r].
    + rewrite length_map. exact H5.
    + rewrite !length_map. exact Hl.
    + rewrite sxx_shift. exact HD.
  - cbn [fr_slope_mag_per_day fr_mag_change_1yr fr_is_fading fr_status
         fr_n_observations].
    split; [exact Hs|]. split; [rewrite Hs, Em; reflexivity|].
    split; [|split].
    + rewrite Ef, Em. apply Qlt_bool_proper; [reflexivity|].
      rewrite Hs. reflexivity.
    + rewrite Est. apply fading_status_proper, Hs.
    + rewrite En. cbn [shift_r lc_r]. apply length_map.
Qed.

(** X14: a linear trend is recovered exactly: when the r samples lie on a
    line of slope k (at two or more different times, 5 samples or more),
    the reported slope is k, the annual change 365 k, and the source is
    flagged exactly when 365 k > 0.2. *)
Theorem analyze_fading_linear_trend (lc : LightCurve) (name : string)
  (k c : Q) :
  (5 <= length (lc_r lc))%nat ->
  on_line k c (lc_times_r lc) (lc_r lc) ->
  two_epochs (lc_times_r lc) ->
  exists res,
    analyze_fading (Some lc) name = Returns (Some res) /\
    fr_slope_mag_per_day res == k /\
    fr_mag_change_1yr res == 365 * k /\
    (fr_is_fading res = true <-> 0.2 < 365 * k).
Proof.
  intros H5 Hline H2.
  pose proof (two_epochs_full_rank _ H2) as HD.
  pose proof (on_line_length _ _ _ _ Hline) as Hlen.
  pose proof (on_line_slope _ _ _ _ Hline HD) as Hs.
  eexists. split; [apply analyze_fading_fit; assumption|].
  cbn [fr_slope_mag_per_day fr_mag_change_1yr fr_is_fading].
  split; [exact Hs|]. split; [rewrite Hs; ring|].
  rewrite Qlt_bool_iff, Hs. split; intro; lra.
Qed.

(** ** Linear bands *)

Lemma on_line_In (k c : Q) (x y : list Q) (t m : Q) :
  on_line k c x y -> In (t, m) (combine x y) -> m == k * t + c.
Proof.
  induction 1 as [|t' m' x y Hm _ IH]; cbn [combine In]; [tauto|].
  intros [E|Hin]; [injection E as <- <-; exact Hm|exact (IH Hin)].
Qed.

Lemma linear_interpolation_on_line (k c : Q) (times mags : list Q) (x v : Q) :
  on_line k c times mags ->
  linear_interpolation times mags x v -> v == k * x + c.
Proof.
  intros Hline (t0 & m0 & t1 & m1 & H0 & H1 & Hlt & _ & _ & Ev).
  rewrite Ev, (on_line_In _ _ _ _ _ _ Hline H0),
          (on_line_In _ _ _ _ _ _ Hline H1).
  field. lra.
Qed.

Lemma array_sub_on_line (kg cg kr cr : Q) (grid gi ri : list Q) :
  Forall2 (fun x v => v == kg * x + cg) grid gi ->
  Forall2 (fun x v => v == kr * x + cr) grid ri ->
  on_line (kg - kr) (cg - cr) grid (array_sub gi ri).
Proof.
  intro Hg. revert ri. induction Hg as [|x v grid gi Hv _ IH]; intros ri Hr;
    inversion Hr as [|x' w grid' ri' Hw Hr']; subst.
  - constructor.
  - unfold array_sub. cbn [combine map fst snd]. constructor.
    + rewrite Hv, Hw. ring.
    + apply IH, Hr'.
Qed.

Lemma Qabs_zero (q : Q) : q == 0 -> Qabs q == 0.
Proof. intro H. rewrite H. reflexivity. Qed.

(** X15: two linear bands give their colour trend exactly: when the g
    samples lie on a line of slope kg and the r samples on a line of slope
    kr (distinct times in each band, 3 samples or more, 100 days or more in
    common), the colour slope is kg - kr and the annual change
    365 (kg - kr); with equal slopes the colour is STABLE, not significant,
    and its mean is the difference of the two intercepts. *)
Theorem analyze_color_evolution_linear_bands (format_2f : Q -> string)
  (lc : LightCurve) (kg cg kr cr start stop : Q) :
  (3 <= length (lc_g lc))%nat -> (3 <= length (lc_r lc))%nat ->
  on_line kg cg (lc_times_g lc) (lc_g lc) ->
  on_line kr cr (lc_times_r lc) (lc_r lc) ->
  distinct_times (lc_times_g lc) -> distinct_times (lc_times_r lc) ->
  time_window lc start stop -> 100 <= stop - start ->
  exists res,
    analyze_color_evolution format_2f (Some lc) = Returns (Some res) /\
    ce_color_slope_per_day res == kg - kr /\
    ce_color_change_1yr res == 365 * (kg - kr) /\
    (kg == kr ->
     ce_status res = "STABLE"%string /\
     ce_is_significant_evolution res = false /\
     ce_mean_color_gr res == cg - cr).
Proof.
  intros Hg Hr Lg Lr Dg Dr Hw Hspan.
  assert (Wf : well_formed lc)
    by (split; [exact (on_line_length _ _ _ _ Lg)
               |exact (on_line_length _ _ _ _ Lr)]).
  destruct (window_ends_exist lc) as (g0 & r0 & g1 & r1 & W);
    try (apply (nonempty_of_length _ 2); destruct Wf; lia).
  destruct (window_ends_unique lc g0 r0 g1 r1 start stop W Hw) as [Es Ee].
  assert (Hspan' : 100 <= py_min g1 r1 - py_max g0 r0)
    by (rewrite <- Es, <- Ee; exact Hspan).
  destruct (analyze_color_evolution_run format_2f lc g0 r0 g1 r1
              Wf Hg Hr Dg Dr W Hspan') as (gi & ri & Fg & Fr & E).
  set (n := Nat.min (length (lc_g lc)) (length (lc_r lc))) in *.
  set (grid := linspace (py_max g0 r0) (py_min g1 r1) n) in *.
  assert (Hn : (2 <= n)%nat) by (unfold n; lia).
  assert (HD : 0 < sxx grid) by (apply linspace_full_rank; [exact Hn|lra]).
  assert (Hline : on_line (kg - kr) (cg - cr) grid (array_sub gi ri)).
  { apply array_sub_on_line.
    - eapply Forall2_impl; [|exact Fg].
      intros x v. apply linear_interpolation_on_line, Lg.
    - eapply Forall2_impl; [|exact Fr].
      intros x v. apply linear_interpolation_on_line, Lr. }
  pose proof (on_line_slope _ _ _ _ Hline HD) as Hs.
  eexists. split; [exact E|].
  cbn [color_result ce_color_slope_per_day ce_color_change_1yr ce_status
       ce_is_significant_evolution ce_mean_color_gr].
  split; [exact Hs|]. split; [rewrite Hs; ring|].
  intro Hk.
  assert (Hz : fit_slope grid (array_sub gi ri) == 0) by (rewrite Hs; lra).
  split; [|split].
  - apply color_status_stable. rewrite (Qabs_zero _ Hz). reflexivity.
  - apply Qlt_bool_false_iff.
    assert (Hz' : fit_slope grid (array_sub gi ri) * 365 == 0)
      by (rewrite Hz; ring).
    rewrite (Qabs_zero _ Hz'). discriminate.
  - destruct (on_line_sums _ _ _ _ Hline) as [Esum _].
    unfold np_mean. rewrite Esum.
    rewrite <- (Qlen_length grid (array_sub gi ri)
                  (on_line_length _ _ _ _ Hline)).
    assert (Hpos : 0 < Qlen grid)
      by (apply Qlen_pos, sxx_pos_nonempty, HD).
    field_simplify_eq; [|lra]. rewrite Hk. ring.
Qed.

(** ** Brightness statistics *)





(** ** Without the network *)

Lemma toy_randint_in_range : randint_in_range toy_random.
Proof.
  intros lo hi s H. cbn [toy_random random_randint fst].
  pose proof (Z.mod_pos_bound (toy_next s) (hi - lo) ltac:(lia)). lia.
Qed.

Lemma synthetic_lc_returns (rnd : NumpyRandom) (py_hash : string -> Z)
  (np_sin : Q -> Q) (np_pi : Q) (object_name : string) (ra dec : Q)
  (s : rng_state rnd) :
  (0 < Z.to_nat (fst (random_randint rnd 30 150
                        (random_seed rnd
                           (py_hash object_name mod 2 ^ 32)%Z))))%nat ->
  exists lc s',
    _generate_synthetic_lc rnd py_hash np_sin np_pi object_name ra dec s
    = (Returns lc, s').
Proof.
  intro Hn.
  destruct (_generate_synthetic_lc rnd py_hash np_sin np_pi object_name
              ra dec s) as [out s'] eqn:H.
  destruct out as [lc|e|]; [exists lc, s'; reflexivity| |]; exfalso;
    unfold _generate_synthetic_lc in H; split_draws;
    cbn [fst] in Hn;
    pose proof (draw_n_length _ _ _ _ _ E0) as L0;
    pose proof (draw_n_length _ _ _ _ _ E1) as L1;
    pose proof (np_sort_length x0) as S0;
    pose proof (np_sort_length x1) as S1;
    destruct (np_sort x0) as [|tg0 tg]; cbn [length] in *; try lia;
    destruct (np_sort x1) as [|tr0 tr]; cbn [length] in *; try lia;
    split_draws; discriminate.
Qed.

Lemma synthetic_count (rnd : NumpyRandom)
  (py_hash : string -> Z) (np_sin : Q -> Q) (np_pi : Q)
  (object_name : string) (ra dec : Q) (s : rng_state rnd) :
  randint_in_range rnd ->
  exists lc s',
    _generate_synthetic_lc rnd py_hash np_sin np_pi object_name ra dec s
    = (Returns lc, s') /\
    well_formed lc /\
    length (lc_g lc) = length (lc_r lc) /\
    (30 <= length (lc_r lc) < 150)%nat.
Proof.
  intro Hr.
  specialize (Hr 30%Z 150%Z
                (random_seed rnd (py_hash object_name mod 2 ^ 32)%Z)
                ltac:(lia)).
  destruct (synthetic_lc_returns rnd py_hash np_sin np_pi object_name
              ra dec s ltac:(lia)) as (lc & s' & E).
  exists lc, s'. split; [exact E|].
  destruct (synthetic_shape rnd py_hash np_sin np_pi object_name ra dec
              s s' lc E) as (_ & Lg & Lr & Ltg & Ltr & _).
  unfold well_formed. rewrite Lg, Lr, Ltg, Ltr. repeat split; lia.
Qed.

(** X17: when [randint] answers within its bounds, the synthetic generator
    returns a well-formed light curve with the same number of samples,
    between 30 and 149, in both bands. *)
Theorem synthetic_lc_sample_count (rnd : NumpyRandom)
  (py_hash : string -> Z) (np_sin : Q -> Q) (np_pi : Q)
  (object_name : string) (ra dec : Q) (s : rng_state rnd) :
  randint_in_range rnd ->
  exists lc s',
    _generate_synthetic_lc rnd py_hash np_sin np_pi object_name ra dec s
    = (Returns lc, s') /\
    well_formed lc /\
    length (lc_g lc) = length (lc_r lc) /\
    (30 <= length (lc_r lc) < 150)%nat.
Proof. exact (synthetic_count rnd py_hash np_sin np_pi object_name ra dec s). Qed.




(** ** The batch loop of main *)

Lemma skipped_real_data (HAS_REQUESTS : bool) (net : http_reply)
  (ztf_data : list observation) :
  real_data HAS_REQUESTS net ztf_data ->
  skipped HAS_REQUESTS net
  = match _parse_ztf_response ztf_data with None => true | Some _ => false end.
Proof.
  intros (-> & -> & Hne). destruct ztf_data as [|o rest]; [congruence|].
  reflexivity.
Qed.

Lemma skipped_fallback (HAS_REQUESTS : bool) (net : http_reply) :
  (forall ztf_data, ~ real_data HAS_REQUESTS net ztf_data) ->
  skipped HAS_REQUESTS net = false.
Proof.
  intro H. unfold skipped.
  destruct HAS_REQUESTS; [|reflexivity]. cbn [andb].
  destruct net as [|code [[|o rest]|]]; try reflexivity.
  - destruct code as [|p|p]; try reflexivity.
    do 8 (destruct p as [p|p|]; try reflexivity).
  - destruct code as [|p|p]; try reflexivity.
    do 8 (destruct p as [p|p|]; try reflexivity).
    exfalso. apply (H (o :: rest)). repeat split. discriminate.
  - destruct code as [|p|p]; try reflexivity.
    do 8 (destruct p as [p|p|]; try reflexivity).
Qed.

Lemma real_data_dec (HAS_REQUESTS : bool) (net : http_reply) :
  (exists ztf_data, real_data HAS_REQUESTS net ztf_data) \/
  (forall ztf_data, ~ real_data HAS_REQUESTS net ztf_data).
Proof.
  unfold real_data.
  destruct HAS_REQUESTS;
    [|right; intros zd (E & _); discriminate].
  destruct net as [|code [[|o rest]|]];
    try (right; intros zd (_ & E & Hne); first
           [discriminate E | injection E as _ E'; subst; congruence]).
  destruct (Z.eq_dec code 200) as [->|Hc].
  - left. exists (o :: rest). repeat split. discriminate.
  - right. intros zd (_ & E & _). injection E as E1 _. congruence.
Qed.

Lemma query_fallback (rnd : NumpyRandom) (py_hash : string -> Z)
  (np_sin : Q -> Q) (np_pi : Q) (HAS_REQUESTS : bool)
  (self : ZTFAnalyzer) (net : http_reply) (s : rng_state rnd)
  (ra dec : Q) (object_name : string) :
  (forall ztf_data, ~ real_data HAS_REQUESTS net ztf_data) ->
  query_ztf_lightcurve rnd py_hash np_sin np_pi HAS_REQUESTS
                       self net s ra dec object_name
  = (let '(lc, s') :=
       _generate_synthetic_lc rnd py_hash np_sin np_pi object_name ra dec s in
     (lc_dict <- lc ;; Returns (Some lc_dict), self, s')).
Proof.
  intro H.
  destruct (query_cases rnd py_hash np_sin np_pi HAS_REQUESTS self net s
              ra dec object_name) as [(zd & Hr)|E]; [|exact E].
  exfalso. exact (H zd Hr).
Qed.

(** What one pass of the loop body can give. *)
Lemma analyze_source_cases (np_sqrt : Q -> Q) (format_2f : Q -> string)
  (rnd : NumpyRandom) (py_hash : string -> Z) (np_sin : Q -> Q) (np_pi : Q)
  (HAS_REQUESTS : bool) (self : ZTFAnalyzer) (net : http_reply)
  (s : rng_state rnd) (source_dict : CatalogRecord) :
  let result :=
    fst (fst (analyze_source np_sqrt format_2f rnd py_hash np_sin np_pi
                HAS_REQUESTS self net s source_dict)) in
  (result = Returns None <-> skipped HAS_REQUESTS net = true) /\
  (forall record,
      result = Returns (Some record) ->
      sa_Objname record = sd_Objname source_dict /\
      sa_RAdeg record = sd_RAdeg source_dict /\
      sa_DEdeg record = sd_DEdeg source_dict).
Proof.
  intro result. split.
  - subst result. unfold analyze_source.
    destruct (real_data_dec HAS_REQUESTS net) as [(zd & Hr)|Hn].
    + rewrite (query_real_data _ _ _ _ _ _ _ _ _ _ _ _ Hr),
              (skipped_real_data _ _ _ Hr). cbn [fst bind].
      destruct (_parse_ztf_response zd) as [lc|].
      * split; [intro H|discriminate].
        exfalso. exact (analyze_lc_not_absent _ _ _ _ H).
      * split; reflexivity.
    + rewrite (query_fallback _ _ _ _ _ _ _ _ _ _ _ Hn),
              (skipped_fallback _ _ Hn).
      destruct (_generate_synthetic_lc rnd py_hash np_sin np_pi
                  (sd_Objname source_dict) (sd_RAdeg source_dict)
                  (sd_DEdeg source_dict) s) as [[lc| |] s0]; cbn [fst bind];
        split; try discriminate.
      intro H. exfalso. exact (analyze_lc_not_absent _ _ _ _ H).
  - intros record H. subst result. unfold analyze_source in H.
    destruct (query_ztf_lightcurve rnd py_hash np_sin np_pi HAS_REQUESTS
                self net s (sd_RAdeg source_dict) (sd_DEdeg source_dict)
                (sd_Objname source_dict)) as [[lc_out self'] s'].
    cbn [fst] in H.
    destruct lc_out as [[lc|]|e|]; cbn [bind] in H; try discriminate.
    unfold analyze_lc in H.
    destruct (analyze_fading (Some lc) (sd_Objname source_dict))
      as [f|e|]; cbn [bind] in H; try discriminate.
    destruct (analyze_color_evolution format_2f (Some lc))
      as [c|e|]; cbn [bind] in H; try discriminate.
    injection H as <-. repeat split.
Qed.

Lemma skipped_offline (HAS_REQUESTS : bool) (net : http_reply) :
  no_live_network HAS_REQUESTS net -> skipped HAS_REQUESTS net = false.
Proof. intros [->| ->]; [reflexivity|]. unfold skipped. apply andb_false_r. Qed.

Lemma kept_offline (HAS_REQUESTS : bool)
  (sources : list (CatalogRecord * http_reply)) :
  Forall (fun p => no_live_network HAS_REQUESTS (snd p)) sources ->
  kept HAS_REQUESTS sources = map fst sources.
Proof.
  unfold kept. induction 1 as [|p l Hp _ IH]; [reflexivity|].
  cbn [filter]. rewrite (skipped_offline _ _ Hp). cbn [negb map].
  f_equal. exact IH.
Qed.

Lemma kept_length (HAS_REQUESTS : bool)
  (sources : list (CatalogRecord * http_reply)) :
  (length (kept HAS_REQUESTS sources) <= length sources)%nat.
Proof.
  unfold kept. rewrite length_map. apply filter_length_le.
Qed.

(** X19: when the batch loop of [main] completes, the records it appended
    are, in catalogue order, those of exactly the sources whose query gave
    a light curve (every source but those answered by a 200 reply without a
    usable observation), each carrying its source's name and position; in
    particular there is one record per source when no query reaches the
    network. *)
Theorem main_loop_results (np_sqrt : Q -> Q) (format_2f : Q -> string)
  (rnd : NumpyRandom) (py_hash : string -> Z) (np_sin : Q -> Q) (np_pi : Q)
  (HAS_REQUESTS : bool)
  (sources : list (CatalogRecord * http_reply))
  (analyzer analyzer' : ZTFAnalyzer) (s s' : rng_state rnd)
  (results out : list SourceAnalysis) :
  main_loop np_sqrt format_2f rnd py_hash np_sin np_pi HAS_REQUESTS
            analyzer s sources results = (Returns out, analyzer', s') ->
  exists new,
    out = results ++ new /\
    map sa_Objname new = map sd_Objname (kept HAS_REQUESTS sources) /\
    map sa_RAdeg new = map sd_RAdeg (kept HAS_REQUESTS sources) /\
    map sa_DEdeg new = map sd_DEdeg (kept HAS_REQUESTS sources) /\
    (length new <= length sources)%nat /\
    (Forall (fun p => no_live_network HAS_REQUESTS (snd p)) sources ->
     map sa_Objname new = map sd_Objname (map fst sources)).
Proof.
  intro H.
  assert (Hmain : exists new,
             out = results ++ new /\
             map sa_Objname new = map sd_Objname (kept HAS_REQUESTS sources) /\
             map sa_RAdeg new = map sd_RAdeg (kept HAS_REQUESTS sources) /\
             map sa_DEdeg new = map sd_DEdeg (kept HAS_REQUESTS sources)).
  { revert analyzer s results H.
    induction sources as [|[source net] rest IH]; intros analyzer s results H.
    - cbn [main_loop] in H. injection H as <- _ _.
      exists []. rewrite app_nil_r. repeat split.
    - cbn [main_loop] in H.
      destruct (analyze_source_cases np_sqrt format_2f rnd py_hash np_sin
                  np_pi HAS_REQUESTS analyzer net s source) as [Hnone Hsome].
      destruct (analyze_source np_sqrt format_2f rnd py_hash np_sin np_pi
                  HAS_REQUESTS analyzer net s source)
        as [[analysis analyzer1] s1].
      cbn [fst] in Hnone, Hsome.
      destruct analysis as [[a|]|e|]; try discriminate.
      + destruct (IH _ _ _ H) as (new & -> & E1 & E2 & E3).
        destruct (Hsome a eq_refl) as (N1 & N2 & N3).
        assert (Hk : skipped HAS_REQUESTS net = false).
        { destruct (skipped HAS_REQUESTS net) eqn:Ek; [|reflexivity].
          pose proof (proj2 Hnone eq_refl). discriminate. }
        exists (a :: new). rewrite <- app_assoc. split; [reflexivity|].
        unfold kept in *. cbn [filter snd]. rewrite Hk. cbn [negb map fst].
        rewrite E1, E2, E3, N1, N2, N3. repeat split.
      + destruct (IH _ _ _ H) as (new & -> & E1 & E2 & E3).
        assert (Hk : skipped HAS_REQUESTS net = true)
          by (apply Hnone; reflexivity).
        exists new. split; [reflexivity|].
        unfold kept in *. cbn [filter snd]. rewrite Hk. cbn [negb].
        repeat split; assumption. }
  destruct Hmain as (new & E0 & E1 & E2 & E3).
  exists new. repeat split; try assumption.
  - rewrite <- (length_map sa_Objname), E1, length_map. apply kept_length.
  - intro Hoff. rewrite E1, (kept_offline _ _ Hoff). reflexivity.
Qed.

Lemma priority_of_visible (x : float) :
  flt x 17 = true <->
  priority_of x = "HIGH"%string \/ priority_of x = "MEDIUM"%string \/
  priority_of x = "LOW"%string.
Proof.
  destruct x as [m| | |]; cbn [flt].
  - rewrite priority_of_num.
    destruct (tier_of_mean_cases m) as (T1 & T2 & T3 & T4).
    rewrite Qlt_bool_iff. split.
    + intro H.
      destruct (Qlt_le_dec m 15.5) as [H1|H1]; [left; auto|].
      destruct (Qlt_le_dec m 16.5) as [H2|H2]; [right; left; auto|].
      right; right. apply T3; [exact H2|]. lra.
    + intro H. destruct (Qlt_le_dec m 17) as [H3|H3]; [exact H3|].
      exfalso. assert (H17 : 17.0 <= m) by lra.
      rewrite (T4 H17) in H. destruct H as [H|[H|H]]; discriminate.
  - cbn. split; [discriminate|].
    intros [H|[H|H]]; discriminate.
  - cbn. split; [discriminate|].
    intros [H|[H|H]]; discriminate.
  - cbn. split; [intros _; left; reflexivity|reflexivity].
Qed.

Lemma analyze_brightness_priority_of (np_sqrt : Q -> Q)
  (lc : RawLightCurve) (b : BrightnessResult) :
  analyze_brightness np_sqrt (Some lc) = Some b ->
  br_priority b = priority_of (br_r_mean b).
Proof.
  rewrite analyze_brightness_fields. intro H. injection H as <-.
  reflexivity.
Qed.

Lemma analyze_lc_record (np_sqrt : Q -> Q) (format_2f : Q -> string)
  (source_dict : CatalogRecord) (lc_data : option LightCurve)
  (record : SourceAnalysis) :
  analyze_lc np_sqrt format_2f source_dict lc_data = Returns (Some record) ->
  exists lc b fading color_evol,
    lc_data = Some lc /\
    analyze_brightness np_sqrt (Some (raw lc)) = Some b /\
    analyze_fading (Some lc) (sd_Objname source_dict) = Returns fading /\
    analyze_color_evolution format_2f (Some lc) = Returns color_evol /\
    record = assemble source_dict (Some b) fading color_evol.
Proof.
  destruct lc_data as [lc|]; [|discriminate]. unfold analyze_lc.
  destruct (analyze_fading (Some lc) (sd_Objname source_dict))
    as [f|e|] eqn:Ef; cbn [bind]; try discriminate.
  destruct (analyze_color_evolution format_2f (Some lc))
    as [c|e|] eqn:Ec; cbn [bind]; try discriminate.
  destruct (analyze_brightness_present np_sqrt (raw lc)) as (b & Eb).
  rewrite Eb. intro H. injection H as <-.
  exists lc, b, f, c. repeat split; first [assumption|reflexivity].
Qed.

Lemma analyze_source_record (np_sqrt : Q -> Q) (format_2f : Q -> string)
  (rnd : NumpyRandom) (py_hash : string -> Z) (np_sin : Q -> Q) (np_pi : Q)
  (HAS_REQUESTS : bool) (self : ZTFAnalyzer) (net : http_reply)
  (s : rng_state rnd) (source_dict : CatalogRecord)
  (record : SourceAnalysis) :
  fst (fst (analyze_source np_sqrt format_2f rnd py_hash np_sin np_pi
              HAS_REQUESTS self net s source_dict))
  = Returns (Some record) ->
  exists lc_data,
    analyze_lc np_sqrt format_2f source_dict lc_data
    = Returns (Some record).
Proof.
  unfold analyze_source.
  destruct (query_ztf_lightcurve rnd py_hash np_sin np_pi HAS_REQUESTS
              self net s (sd_RAdeg source_dict) (sd_DEdeg source_dict)
              (sd_Objname source_dict)) as [[lc_out self'] s'].
  cbn [fst]. destruct lc_out as [lc_data|e|]; cbn [bind]; try discriminate.
  intro H. exists lc_data. exact H.
Qed.

(** X20: in every record [analyze_source] returns, the columns that [main]
    filters on agree with the labels: r_mean < 17 (main's "optically
    visible") holds exactly when the priority is HIGH, MEDIUM or LOW; a
    record with is_fading set has a fading_mag_per_year above 0.2 and the
    FADING label; a record with is_reddening_bluing set has a colour label
    other than STABLE and UNKNOWN. *)
Theorem analyze_source_columns_agree (np_sqrt : Q -> Q)
  (format_2f : Q -> string) (rnd : NumpyRandom) (py_hash : string -> Z)
  (np_sin : Q -> Q) (np_pi : Q) (HAS_REQUESTS : bool) (self : ZTFAnalyzer)
  (net : http_reply) (s : rng_state rnd) (source_dict : CatalogRecord)
  (record : SourceAnalysis) :
  fst (fst (analyze_source np_sqrt format_2f rnd py_hash np_sin np_pi
              HAS_REQUESTS self net s source_dict))
  = Returns (Some record) ->
  (flt (sa_r_mean record) 17 = true <->
   sa_r_priority record = "HIGH"%string \/
   sa_r_priority record = "MEDIUM"%string \/
   sa_r_priority record = "LOW"%string) /\
  (sa_is_fading record = true ->
   (exists x, sa_fading_mag_per_year record = Num x /\ 0.2 < x) /\
   sa_fading_status record
   = "FADING (brightening in mag = getting dimmer)"%string) /\
  (sa_is_reddening_bluing record = true ->
   sa_color_status record <> "STABLE"%string /\
   sa_color_status record <> "UNKNOWN"%string).
Proof.
  intro H.
  destruct (analyze_source_record _ _ _ _ _ _ _ _ _ _ _ _ H) as (lc_data & Hl).
  destruct (analyze_lc_record _ _ _ _ _ Hl)
    as (lc & b & fading & color_evol & _ & Eb & Ef & Ec & ->).
  cbn [assemble sa_r_mean sa_r_priority sa_is_fading sa_fading_mag_per_year
       sa_fading_status sa_is_reddening_bluing sa_color_status].
  split; [|split].
  - rewrite (analyze_brightness_priority_of _ _ _ Eb).
    apply priority_of_visible.
  - destruct fading as [f|]; [|discriminate]. intro Ht.
    destruct (analyze_fading_inv lc _ f Ef) as (_ & Es & Em & Eff & _).
    assert (Hx : 0.2 < fr_mag_change_1yr f)
      by (rewrite Eff in Ht; apply Qlt_bool_iff in Ht; exact Ht).
    split; [exists (fr_mag_change_1yr f); split; [reflexivity|exact Hx]|].
    rewrite Es. apply fading_status_fading. rewrite Em in Hx. lra.
  - destruct color_evol as [c|]; [|discriminate]. intro Ht.
    destruct (analyze_color_evolution_inv format_2f lc c Ec)
      as (Es & Em & Eff & _).
    rewrite Eff, Em in Ht. apply Qlt_bool_iff in Ht.
    rewrite Es, Em.
    destruct (Qlt_le_dec (ce_color_slope_per_day c * 365) 0) as [Hn|Hp].
    + rewrite Qabs_neg in Ht by lra.
      rewrite color_status_blueing by lra. split; discriminate.
    + rewrite Qabs_pos in Ht by lra.
      rewrite color_status_reddening by lra. split; discriminate.
Qed.


(** ** The further properties at concrete inputs *)

Lemma parse_ztf_response_well_formed_witness :
  exists lc,
    _parse_ztf_response sample_observations = Some lc /\ well_formed lc.
Proof.
  eexists. split; [reflexivity|].
  apply (parse_ztf_response_well_formed sample_observations). reflexivity.
Defined.

Lemma query_none_only_from_real_data_witness :
  exists ztf_data,
    real_data true unusable_reply ztf_data /\
    usable_samples "g" ztf_data = [] /\ usable_samples "r" ztf_data = [].
Proof.
  destruct (query_none_only_from_real_data toy_random toy_hash toy_sin toy_pi
              true toy_analyzer
              {| ztf_token := "token"; output_dir := "ztf_analysis";
                 use_real_data := true |}
              unusable_reply 1%Z 1%Z 83.8 (-5.4) "V1647 Ori")
    as (zd & Hr & Hg & Hrr & _).
  - reflexivity.
  - exists zd. split; [exact Hr|]. split; assumption.
Defined.

Lemma synthetic_lc_shape_witness :
  exists lc,
    fst (_generate_synthetic_lc toy_random toy_hash toy_sin toy_pi
                                "V1647 Ori" 83.8 (-5.4) 1%Z) = Returns lc /\
    length (lc_g lc) = length (lc_times_g lc) /\
    StronglySorted Qle (lc_times_r lc).
Proof.
  destruct (_generate_synthetic_lc toy_random toy_hash toy_sin toy_pi
                                   "V1647 Ori" 83.8 (-5.4) 1%Z)
    as [[lc|e|] s'] eqn:E.
  - exists lc. split; [reflexivity|].
    destruct (synthetic_lc_shape toy_random toy_hash toy_sin toy_pi
                "V1647 Ori" 83.8 (-5.4) 1%Z s' lc E)
      as (_ & Lg & _ & Ltg & _ & _ & Sr).
    split; [congruence|exact Sr].
  - vm_compute in E. discriminate E.
  - vm_compute in E. discriminate E.
Defined.

Lemma analyze_fading_no_raise_witness :
  analyze_fading (Some lc_rise_a) EmptyString <> Returns None.
Proof.
  destruct (analyze_fading_no_raise lc_rise_a EmptyString) as [_ H].
  - reflexivity.
  - apply H. cbn. repeat constructor.
Defined.

Lemma analyze_fading_ragged_witness :
  analyze_fading (Some lc_ragged_r) EmptyString = Raises TypeError.
Proof.
  apply analyze_fading_ragged.
  - cbn. repeat constructor.
  - cbn. discriminate.
Defined.

Lemma analyze_color_evolution_no_raise_witness :
  analyze_color_evolution (fun _ => EmptyString) (Some lc_constant_color)
  <> Raises ValueError.
Proof.
  apply analyze_color_evolution_no_raise. split; reflexivity.
Defined.

Lemma analyze_color_evolution_no_times_witness :
  analyze_color_evolution (fun _ => EmptyString) (Some lc_no_times)
  = Raises ValueError.
Proof.
  apply analyze_color_evolution_no_times.
  - cbn. repeat constructor.
  - cbn. repeat constructor.
  - left. reflexivity.
Defined.

Lemma fading_flag_matches_label_witness :
  exists res,
    analyze_fading (Some lc_rise_a) EmptyString = Returns (Some res) /\
    fr_status res = "FADING (brightening in mag = getting dimmer)"%string.
Proof.
  eexists. split; [reflexivity|].
  refine (proj1 (fading_flag_matches_label lc_rise_a EmptyString _ eq_refl)
                _).
  reflexivity.
Defined.

Lemma color_flag_matches_label_witness :
  exists res,
    analyze_color_evolution (fun _ => EmptyString) (Some lc_reddening)
    = Returns (Some res) /\
    String.prefix "REDDENING" (ce_status res) = true.
Proof.
  eexists. split; [vm_compute; reflexivity|].
  edestruct (color_flag_matches_label (fun _ => EmptyString) lc_reddening)
    as [H _].
  - vm_compute. reflexivity.
  - destruct H as (Hr & _ & _); [reflexivity|].
    apply Hr. qcompute.
Defined.

Lemma common_grid_inside_bands_witness :
  Forall (fun x => (0 <= x <= 400) /\ (0 <= x <= 400))
         (linspace (py_max 0 0) (py_min 400 400) 5).
Proof.
  destruct (common_grid_inside_bands lc_constant_color 0 0 400 400 5)
    as (_ & _ & _ & _ & H); try reflexivity.
  - repeat constructor.
  - qcompute.
  - exact H.
Defined.

Lemma analyze_fading_zero_points_witness :
  exists res',
    analyze_fading (Some (shift_r 1 58000 lc_rise_a)) EmptyString
    = Returns (Some res') /\
    fr_is_fading res' = true.
Proof.
  edestruct (analyze_fading_zero_points lc_rise_a EmptyString 1 58000)
    as (res' & E & _ & _ & Hf & _).
  - reflexivity.
  - exists res'. split; [exact E|]. rewrite Hf. reflexivity.
Defined.

Lemma analyze_fading_linear_trend_witness :
  exists res,
    analyze_fading (Some lc_rise_a) EmptyString = Returns (Some res) /\
    fr_slope_mag_per_day res == 0.001.
Proof.
  destruct (analyze_fading_linear_trend lc_rise_a EmptyString 0.001 14)
    as (res & E & Hs & _).
  - cbn. repeat constructor.
  - cbn. repeat constructor; qcompute.
  - exists 0, 100. cbn. split; [auto|]. split; [auto|]. qcompute.
  - exists res. split; assumption.
Defined.

Lemma analyze_color_evolution_linear_bands_witness :
  exists res,
    analyze_color_evolution (fun _ => EmptyString) (Some lc_constant_color)
    = Returns (Some res) /\
    ce_status res = "STABLE"%string.
Proof.
  destruct (analyze_color_evolution_linear_bands (fun _ => EmptyString)
              lc_constant_color 0 15 0 14 0 400)
    as (res & E & _ & _ & H).
  - cbn. repeat constructor.
  - cbn. repeat constructor.
  - cbn. repeat constructor; qcompute.
  - cbn. repeat constructor; qcompute.
  - cbn. repeat constructor; qcompute.
  - cbn. repeat constructor; qcompute.
  - exists 0, 0, 400, 400. cbn.
    repeat split; auto 10; try (repeat constructor; qcompute); qcompute.
  - qcompute.
  - exists res. split; [exact E|]. apply H. reflexivity.
Defined.


Lemma synthetic_lc_sample_count_witness :
  exists lc s',
    _generate_synthetic_lc toy_random toy_hash toy_sin toy_pi
                           "V1647 Ori" 83.8 (-5.4) 1%Z = (Returns lc, s') /\
    (30 <= length (lc_r lc) < 150)%nat.
Proof.
  destruct (synthetic_lc_sample_count toy_random toy_hash toy_sin toy_pi
              "V1647 Ori" 83.8 (-5.4) 1%Z) as (lc & s' & E & _ & _ & H).
  - intros lo hi s Hlt. cbn [toy_random random_randint fst].
    pose proof (Z.mod_pos_bound (toy_next s) (hi - lo) ltac:(lia)). lia.
  - exists lc, s'. split; assumption.
Defined.


Lemma main_loop_results_witness :
  exists out,
    fst (fst (main_loop (fun x => x) (fun _ => EmptyString) toy_random
                toy_hash toy_sin toy_pi true toy_analyzer 1%Z
                sample_batch [])) = Returns out /\
    map sa_Objname out = ["V1647 Ori"%string].
Proof.
  destruct (main_loop (fun x => x) (fun _ => EmptyString) toy_random
              toy_hash toy_sin toy_pi true toy_analyzer 1%Z sample_batch [])
    as [[[out|e|] a'] s'] eqn:E.
  - exists out. split; [reflexivity|].
    destruct (main_loop_results _ _ _ _ _ _ _ _ _ _ _ _ _ _ E)
      as (new & -> & En & _).
    cbn [app]. rewrite En. reflexivity.
  - vm_compute in E. discriminate E.
  - vm_compute in E. discriminate E.
Defined.

Lemma analyze_source_columns_agree_witness :
  exists record,
    fst (fst (analyze_source (fun x => x) (fun _ => EmptyString) toy_random
                toy_hash toy_sin toy_pi true toy_analyzer sample_reply 1%Z
                sample_source))
    = Returns (Some record) /\
    flt (sa_r_mean record) 17 = true.
Proof.
  eexists. split; [vm_compute; reflexivity|].
  edestruct (analyze_source_columns_agree (fun x => x)
               (fun _ => EmptyString) toy_random toy_hash toy_sin toy_pi
               true toy_analyzer sample_reply 1%Z sample_source) as [H _].
  - vm_compute. reflexivity.
  - vm_compute. reflexivity.
Defined.

